(** * FlowProcess: the supervisor of one Flow server per project root

    A shallow embedding of [pkg/nuclide/flow-base/lib/FlowProcess.js].

    The class keeps three fields ([_serverStatus], [_startedServer],
    [_root]) and talks to the outside through an rx [BehaviorSubject],
    child processes and a logger.  The embedding threads one record,
    [World], through every method: it holds the object's fields together
    with the traces of what the object did to the outside (notifications
    delivered, processes spawned and killed, commands executed, log lines).

    Asynchronous methods are cut at their [await]s.  What other activity
    does to the supervisor while a method is suspended is given by a list
    of [Event]s that the environment supplies for that suspension point. *)

From Stdlib Require Import ZArith List String Bool Arith Lia.
Import ListNotations.
Open Scope string_scope.
Open Scope list_scope.

(** ** Data *)

(** [ServerStatus] is a string type in the source ('unknown', 'not running',
    'init', 'busy', 'ready', 'failed', 'not installed'). *)
Abbreviation ServerStatus := string (only parsing).

(** [process$asyncExecuteRet].  [exitCode] is [None] when the object has no
    numeric [exitCode] field (an [Error] object reaching a [catch]): every
    [===] comparison with a number is then false. *)
Record Result := mkResult {
  exitCode : option Z;
  stdout : string;
  stderr : string
}.

(** Names modeled after flowExitStatus.ml *)
Record ReturnCodes := mkReturnCodes {
  ok : Z;
  serverInitializing : Z;
  typeError : Z;
  noServerRunning : Z;
  outOfRetries : Z;
  buildIdMismatch : Z
}.

Definition FLOW_RETURN_CODES : ReturnCodes := {|
  ok := 0;
  serverInitializing := 1;
  typeError := 2;
  noServerRunning := 6;
  outOfRetries := 7;
  buildIdMismatch := 9
|}.

(** What a JavaScript [throw] carries here: the value [asyncExecute]
    rejected with ([null]/[undefined] is [None]), or the [AssertionError]
    of a failed [invariant]. *)
Inductive Thrown :=
| ThrownValue (e : option Result)
| AssertionError.

(** The thrown value seen as the argument of [_updateServerStatus(e)]. *)
Definition thrown_as_result (e : Thrown) : option Result :=
  match e with
  | ThrownValue r => r
  | AssertionError => Some (mkResult None "" "")
  end.

Inductive Completion (A : Type) :=
| Normal (a : A)
| Abrupt (e : Thrown).
Arguments Normal {A} a.
Arguments Abrupt {A} e.

(** What a subscriber of the subject receives. *)
Inductive Notification :=
| OnNext (x : ServerStatus)
| OnCompleted.

(** rx [BehaviorSubject]: the latest value and the stopped flag. *)
Record BehaviorSubject := mkSubject {
  value : ServerStatus;
  isStopped : bool
}.

(** A child process handle: its index in the list of spawned servers. *)
Definition ChildProcess := nat.

Definition Options := list (string * string).

Record ExecCall := mkExecCall {
  execCommand : string;
  execArgs : list string;
  execOptions : Options
}.

Inductive LogEntry :=
| ErrorFlowFailed (args : list string) (e : Thrown)
| ErrorServerExited (root : string)
| InfoKilledServer (root : string)
| ErrorUnknownReturnCode (code : option Z).

Record World := mkWorld {
  (* fields of the object *)
  _serverStatus : BehaviorSubject;
  _startedServer : option ChildProcess;
  _root : string;
  (* getPathToFlow(), from FlowHelpers.js *)
  pathToFlow : string;
  (* what the object did *)
  emitted : list Notification;
  startsInFlight : nat;
  spawned : list (list string);
  killed : list (ChildProcess * string);
  rawExecCalls : nat;
  executed : list ExecCall;
  logged : list LogEntry
}.

Definition set_serverStatus (s : BehaviorSubject) (w : World) : World :=
  mkWorld s (_startedServer w) (_root w) (pathToFlow w) (emitted w)
          (startsInFlight w) (spawned w) (killed w) (rawExecCalls w)
          (executed w) (logged w).

Definition set_startedServer (p : option ChildProcess) (w : World) : World :=
  mkWorld (_serverStatus w) p (_root w) (pathToFlow w) (emitted w)
          (startsInFlight w) (spawned w) (killed w) (rawExecCalls w)
          (executed w) (logged w).

Definition set_emitted (l : list Notification) (w : World) : World :=
  mkWorld (_serverStatus w) (_startedServer w) (_root w) (pathToFlow w) l
          (startsInFlight w) (spawned w) (killed w) (rawExecCalls w)
          (executed w) (logged w).

Definition set_startsInFlight (n : nat) (w : World) : World :=
  mkWorld (_serverStatus w) (_startedServer w) (_root w) (pathToFlow w)
          (emitted w) n (spawned w) (killed w) (rawExecCalls w)
          (executed w) (logged w).

Definition set_spawned (l : list (list string)) (w : World) : World :=
  mkWorld (_serverStatus w) (_startedServer w) (_root w) (pathToFlow w)
          (emitted w) (startsInFlight w) l (killed w) (rawExecCalls w)
          (executed w) (logged w).

Definition set_killed (l : list (ChildProcess * string)) (w : World) : World :=
  mkWorld (_serverStatus w) (_startedServer w) (_root w) (pathToFlow w)
          (emitted w) (startsInFlight w) (spawned w) l (rawExecCalls w)
          (executed w) (logged w).

Definition set_rawExecCalls (n : nat) (w : World) : World :=
  mkWorld (_serverStatus w) (_startedServer w) (_root w) (pathToFlow w)
          (emitted w) (startsInFlight w) (spawned w) (killed w) n
          (executed w) (logged w).

Definition set_executed (l : list ExecCall) (w : World) : World :=
  mkWorld (_serverStatus w) (_startedServer w) (_root w) (pathToFlow w)
          (emitted w) (startsInFlight w) (spawned w) (killed w)
          (rawExecCalls w) l (logged w).

Definition set_logged (l : list LogEntry) (w : World) : World :=
  mkWorld (_serverStatus w) (_startedServer w) (_root w) (pathToFlow w)
          (emitted w) (startsInFlight w) (spawned w) (killed w)
          (rawExecCalls w) (executed w) l.

Definition emit (n : Notification) (w : World) : World :=
  set_emitted (emitted w ++ [n]) w.

Definition log (entry : LogEntry) (w : World) : World :=
  set_logged (logged w ++ [entry]) w.

(** ** A state-and-exception monad for the synchronous pieces *)

Definition M (A : Type) := World -> Completion A * World.

Definition ret {A} (a : A) : M A := fun w => (Normal a, w).

Definition throw {A} (e : Thrown) : M A := fun w => (Abrupt e, w).

Definition bind {A B} (m : M A) (k : A -> M B) : M B :=
  fun w =>
    match m w with
    | (Normal a, w') => k a w'
    | (Abrupt e, w') => (Abrupt e, w')
    end.

Definition try_catch {A} (body : M A) (handler : Thrown -> M A) : M A :=
  fun w =>
    match body w with
    | (Normal a, w') => (Normal a, w')
    | (Abrupt e, w') => handler e w'
    end.

Definition effect (f : World -> World) : M unit := fun w => (Normal tt, f w).

Notation "x <- m ;; k" := (bind m (fun x => k))
  (at level 61, m at next level, right associativity).
Notation "m ;;; k" := (bind m (fun _ => k))
  (at level 61, right associativity).

(** [invariant(cond)] from 'assert'. *)
Definition invariant (cond : bool) : M unit :=
  if cond then ret tt else throw AssertionError.

(** ** The subject *)

Definition getValue (w : World) : ServerStatus := value (_serverStatus w).

Definition stopped (w : World) : bool := isStopped (_serverStatus w).

(** Starts a Flow server in the current root: the part of
    [_startFlowServer] that runs up to [await safeSpawn(...)]. *)
Definition _startFlowServer (w : World) : World :=
  set_startsInFlight (S (startsInFlight w)) w.

(** The subscription made by the constructor:
    [filter(x => x === 'not running').subscribe(() => _startFlowServer())]. *)
Definition restartSubscriber (x : ServerStatus) (w : World) : World :=
  if x =? "not running" then _startFlowServer w else w.

(** [BehaviorSubject.onNext]: ignored once stopped; otherwise the value is
    stored and every observer receives it. *)
Definition onNext (x : ServerStatus) (w : World) : World :=
  if stopped w then w
  else restartSubscriber x
         (emit (OnNext x) (set_serverStatus (mkSubject x false) w)).

(** [BehaviorSubject.onCompleted]: ignored once stopped; otherwise the
    subject stops, every observer is completed and dropped. *)
Definition onCompleted (w : World) : World :=
  if stopped w then w
  else emit OnCompleted (set_serverStatus (mkSubject (getValue w) true) w).

(** ** The class *)

Definition constructor (flowPath root : string) : World :=
  (* subscribing replays 'unknown', which the filter drops *)
  restartSubscriber "unknown"
    (mkWorld (mkSubject "unknown" false) None root flowPath
             [] 0 [] [] 0 [] []).

Definition dispose (w : World) : World :=
  let w := onCompleted w in
  match _startedServer w with
  | Some p =>
      (* The default, SIGTERM, does not reliably kill the flow servers. *)
      set_killed (killed w ++ [(p, "SIGKILL")]) w
  | None => w
  end.

(** [result.exitCode === code] *)
Definition strictEq (c : option Z) (code : Z) : bool :=
  match c with
  | Some n => Z.eqb n code
  | None => false
  end.

(** The first half of [_updateServerStatus]: [let status;] followed by the
    [if]/[switch] that assigns it.  [None] is the unassigned variable. *)
Definition chooseStatus (result : option Result) : M (option ServerStatus) :=
  match result with
  | None => ret (Some "not installed")
  | Some result =>
      let c := exitCode result in
      if strictEq c (ok FLOW_RETURN_CODES)
         || strictEq c (typeError FLOW_RETURN_CODES) then
        ret (Some "ready")
      else if strictEq c (serverInitializing FLOW_RETURN_CODES) then
        ret (Some "init")
      else if strictEq c (noServerRunning FLOW_RETURN_CODES) then
        ret (Some "not running")
      else if strictEq c (outOfRetries FLOW_RETURN_CODES) then
        ret (Some "busy")
      else if strictEq c (buildIdMismatch FLOW_RETURN_CODES) then
        fun w => (Normal (Some "not running"), log (InfoKilledServer (_root w)) w)
      else
        effect (log (ErrorUnknownReturnCode c)) ;;;
        ret (Some "unknown")
  end.

Definition _updateServerStatus (result : option Result) : M unit :=
  status <- chooseStatus result ;;
  invariant (match status with Some _ => true | None => false end) ;;;
  match status with
  | Some status =>
      fun w =>
        if negb (status =? getValue w) then (Normal tt, onNext status w)
        else (Normal tt, w)
  | None => ret tt
  end.

(** If this returns null, then it is not safe to run flow. *)
Definition _getFlowExecOptions (installed : bool) (w : World) : option Options :=
  if installed then Some [("cwd", _root w)] else None.

(** The ['exit'] handler that [_startFlowServer] registers on the spawned
    process.  [code] and [signal] are [None] for [null]. *)
Definition onExit (code : option Z) (signal : option string) (w : World) : World :=
  (* We only want to blacklist this root if the Flow processes actually
     failed, rather than being killed manually. *)
  if strictEq code 2
     && (match signal with None => true | Some _ => false end) then
    onCompleted (onNext "failed" (log (ErrorServerExited (_root w)) w))
  else w.

(** The rest of [_startFlowServer], once [safeSpawn] has resolved with the
    new process: the handlers are registered and the handle is stored. *)
Definition _startFlowServer_resume (w : World) : World :=
  match startsInFlight w with
  | O => w
  | S n =>
      let serverProcess := List.length (spawned w) in
      set_startedServer (Some serverProcess)
        (set_spawned (spawned w ++ [[pathToFlow w; "server"; _root w]])
           (set_startsInFlight n w))
  end.

(** ** What can happen while an asynchronous method is suspended *)

Inductive Event :=
| CommandClassified (result : option Result)
    (* another command completed and ran [_updateServerStatus] *)
| SpawnResolved
    (* the oldest pending [safeSpawn] resolved *)
| ServerExited (p : ChildProcess) (code : option Z) (signal : option string)
    (* the 'exit' event of a spawned server *)
| Disposed.
    (* [dispose()] was called *)

Definition run_event (ev : Event) (w : World) : World :=
  match ev with
  | CommandClassified result => snd (_updateServerStatus result w)
  | SpawnResolved => _startFlowServer_resume w
  | ServerExited p code signal =>
      if (p <? List.length (spawned w))%nat then onExit code signal w else w
  | Disposed => dispose w
  end.

Definition run_events (evs : list Event) (w : World) : World :=
  fold_left (fun w ev => run_event ev w) evs w.

(** ** Executing commands *)

(** How [asyncExecute] settles. *)
Inductive ExecOutcome :=
| Fulfilled (result : Result)
| Rejected (e : option Result).

(** The environment of one call of [_rawExecFlow] made by [execFlow]. *)
Record Attempt := mkAttempt {
  installed : bool;                 (* what [isFlowInstalled()] resolves to *)
  outcome : ExecOutcome;            (* how [asyncExecute] settles *)
  duringInstallCheck : list Event;  (* while [_getFlowExecOptions] is awaited *)
  duringExecute : list Event;       (* while [asyncExecute] is awaited *)
  beforeResume : list Event         (* before [execFlow] resumes after its await *)
}.

(** Execute Flow with the given arguments *)
Definition _rawExecFlow (args : list string) (options : Options)
    (att : Attempt) : M (option Result) :=
  effect (fun w => set_rawExecCalls (S (rawExecCalls w)) w) ;;;
  effect (run_events (duringInstallCheck att)) ;;;
  fun w =>
    match _getFlowExecOptions (installed att) w with
    | None => (Normal None, w)
    | Some flowOptions =>
        let options := flowOptions ++ options in
        let args := args ++ ["--no-auto-start"; "--from"; "nuclide"] in
        try_catch
          (effect (fun w => set_executed
                     (executed w ++ [mkExecCall (pathToFlow w) args options]) w) ;;;
           effect (run_events (duringExecute att)) ;;;
           result <- match outcome att with
                     | Fulfilled result => ret result
                     | Rejected e => throw (ThrownValue e)
                     end ;;
           _updateServerStatus (Some result) ;;;
           ret (Some result))
          (fun e =>
             _updateServerStatus (thrown_as_result e) ;;;
             throw e)
          w
    end.

(** [Array.prototype.indexOf] *)
Fixpoint indexOf (l : list string) (x : string) : Z :=
  match l with
  | [] => (-1)%Z
  | y :: l' =>
      if y =? x then 0%Z
      else match indexOf l' x with
           | Zneg _ => (-1)%Z
           | i => (i + 1)%Z
           end
  end.

Definition maxTries : nat := 5.

Definition shouldRetry (w : World) : bool :=
  negb (Z.eqb (indexOf ["not running"; "init"; "busy"] (getValue w)) (-1)).

(** The [for (let i = 0; ; i++)] loop of [execFlow], from iteration [i].
    The source loop has no bound of its own, so the embedding recurses on
    [fuel]; [None] means the fuel ran out before the loop was left. *)
Fixpoint execFlow_loop (fuel : nat) (i : nat) (attempts : nat -> Attempt)
    (args : list string) (options : Options) (logErrors : bool) (w : World)
    : option (Completion (option Result) * World) :=
  match fuel with
  | O => None
  | S fuel' =>
      match _rawExecFlow args options (attempts i) w with
      | (Normal result, w) =>
          Some (Normal result, run_events (beforeResume (attempts i)) w)
      | (Abrupt e, w) =>
          let w := run_events (beforeResume (attempts i)) w in
          if (i <? maxTries)%nat && shouldRetry w then
            (* Try again. *)
            execFlow_loop fuel' (S i) attempts args options logErrors w
          else
            (* not sure what happened, but we'll let the caller deal with it *)
            Some (Abrupt e,
                  if logErrors then log (ErrorFlowFailed args e) w else w)
      end
  end.

(** Returns null if Flow cannot be found. *)
Definition execFlow (fuel : nat) (attempts : nat -> Attempt)
    (args : list string) (options : Options) (file : string)
    (logErrors : bool) (w : World)
    : option (Completion (option Result) * World) :=
  if getValue w =? "failed" then Some (Normal None, w)
  else execFlow_loop fuel 0 attempts args options logErrors w.

(** One iteration of the loop as [execFlow] sees it: the awaited call and
    whatever runs before the loop body resumes. *)
Definition attempt (i : nat) (attempts : nat -> Attempt)
    (args : list string) (options : Options) (w : World)
    : Completion (option Result) * World :=
  match _rawExecFlow args options (attempts i) w with
  | (c, w') => (c, run_events (beforeResume (attempts i)) w')
  end.

(** ** Vocabulary of the properties *)

(** The classification table as the specification prints it, row by row. *)
Definition classification_table (result : option Result) : ServerStatus :=
  match result with
  | None => "not installed"
  | Some r =>
      match exitCode r with
      | Some 0%Z => "ready"
      | Some 2%Z => "ready"
      | Some 1%Z => "init"
      | Some 6%Z => "not running"
      | Some 7%Z => "busy"
      | Some 9%Z => "not running"
      | _ => "unknown"
      end
  end.

(** The values a subscriber received through [onNext], oldest first. *)
Fixpoint nextValues (l : list Notification) : list ServerStatus :=
  match l with
  | [] => []
  | OnNext x :: l' => x :: nextValues l'
  | OnCompleted :: l' => nextValues l'
  end.

(** No value of [l] equals the one just before it, [prev] being the value
    in place before the first. *)
Fixpoint noRepeat (prev : ServerStatus) (l : list ServerStatus) : bool :=
  match l with
  | [] => true
  | x :: l' => negb (x =? prev) && noRepeat x l'
  end.

(** Calls of [_startFlowServer] so far: those still awaiting [safeSpawn]
    and those that went on to store a process. *)
Definition startsInvoked (w : World) : nat :=
  startsInFlight w + List.length (spawned w).

(** Everything that can be done to a supervisor from outside. *)
Inductive Operation :=
| OpEvent (ev : Event)
| OpRawExecFlow (args : list string) (options : Options) (att : Attempt)
| OpExecFlow (fuel : nat) (attempts : nat -> Attempt) (args : list string)
             (options : Options) (file : string) (logErrors : bool).

Definition perform (op : Operation) (w : World) : World :=
  match op with
  | OpEvent ev => run_event ev w
  | OpRawExecFlow args options att => snd (_rawExecFlow args options att w)
  | OpExecFlow fuel attempts args options file logErrors =>
      match execFlow fuel attempts args options file logErrors w with
      | Some (_, w') => w'
      | None => w
      end
  end.

Definition perform_all (ops : list Operation) (w : World) : World :=
  fold_left (fun w op => perform op w) ops w.

(** The call of [execFlow] started in [w0] gets to iteration [i] of its loop
    in world [w]. *)
Inductive ReachesAttempt (attempts : nat -> Attempt) (args : list string)
    (options : Options) (w0 : World) : nat -> World -> Prop :=
| RA_first :
    getValue w0 <> "failed" ->
    ReachesAttempt attempts args options w0 0 w0
| RA_retry : forall i w e w',
    ReachesAttempt attempts args options w0 i w ->
    attempt i attempts args options w = (Abrupt e, w') ->
    i < maxTries ->
    shouldRetry w' = true ->
    ReachesAttempt attempts args options w0 (S i) w'.

(** The invariant of the status channel: what the subscribers received
    never repeats, the subject holds the last of it, a failed subject is
    completed, and servers were started once per 'not running'. *)
Record Inv (w : World) : Prop := mkInv {
  inv_norepeat : noRepeat "unknown" (nextValues (emitted w)) = true;
  inv_current : last (nextValues (emitted w)) "unknown" = getValue w;
  inv_failed : getValue w = "failed" -> stopped w = true;
  inv_starts :
    startsInvoked w =
    count_occ string_dec (nextValues (emitted w)) "not running"
}.

(** Commands are only executed by [_rawExecFlow]. *)
Definition SameCommands (w w' : World) : Prop :=
  rawExecCalls w' = rawExecCalls w /\ executed w' = executed w.

(** Nothing reaches the subscribers and the subject keeps its state. *)
Definition Silent (w w' : World) : Prop :=
  emitted w' = emitted w /\ _serverStatus w' = _serverStatus w.

(** ** Concrete supervisors and environments *)

Definition exited (code : Z) : Result := mkResult (Some code) "" "".

(** [asyncExecute] rejects with exit code 7: the server is busy. *)
Definition busyAttempt : Attempt :=
  mkAttempt true (Rejected (Some (exited 7))) [] [] [].

(** [asyncExecute] rejects with exit code 2: type errors were found. *)
Definition typeErrorAttempt : Attempt :=
  mkAttempt true (Rejected (Some (exited 2))) [] [] [].

Definition okAttempt : Attempt :=
  mkAttempt true (Fulfilled (exited 0)) [] [] [].

(** [isFlowInstalled()] resolves to false. *)
Definition notInstalledAttempt : Attempt :=
  mkAttempt false (Fulfilled (exited 0)) [] [] [].

Definition freshWorld : World := constructor "flow" "/proj".

(** A server was started after exit code 6, and then crashed. *)
Definition crashedWorld : World :=
  run_events [CommandClassified (Some (exited 6)); SpawnResolved;
              ServerExited 0 (Some 2%Z) None] freshWorld.

(** A server was started after exit code 6 and is running. *)
Definition servingWorld : World :=
  run_events [CommandClassified (Some (exited 6)); SpawnResolved] freshWorld.

(** Three commands complete with exit codes 6, 7 and 6 before any
    [safeSpawn] has resolved. *)
Definition racingCommands : list Event :=
  [CommandClassified (Some (exited 6)); CommandClassified (Some (exited 7));
   CommandClassified (Some (exited 6))].

(** ** Further vocabulary *)

(** The flags [_rawExecFlow] appends to every argument list. *)
Definition flowFlags : list string := ["--no-auto-start"; "--from"; "nuclide"].

(** A command as [_rawExecFlow] hands it to [asyncExecute] for a supervisor
    of [root] whose executable is [flowPath]. *)
Definition wellFormedCall (flowPath root : string) (c : ExecCall) : Prop :=
  execCommand c = flowPath /\
  (exists args, execArgs c = args ++ flowFlags) /\
  (exists options, execOptions c = ("cwd", root) :: options).

(** The log line of [execFlow] itself. *)
Definition isFlowFailed (entry : LogEntry) : bool :=
  match entry with
  | ErrorFlowFailed _ _ => true
  | _ => false
  end.

Definition failuresLogged (w : World) : nat :=
  List.length (filter isFlowFailed (logged w)).

(** The handle of the server spawned last. *)
Definition lastSpawned (w : World) : option ChildProcess :=
  match List.length (spawned w) with
  | O => None
  | S n => Some n
  end.

(** The exit codes whose status lets [execFlow] try again. *)
Definition retryableExit (e : option Result) : bool :=
  match e with
  | Some r =>
      match exitCode r with
      | Some c => (c =? 1)%Z || (c =? 6)%Z || (c =? 7)%Z || (c =? 9)%Z
      | None => false
      end
  | None => false
  end.

(** What the supervisor keeps about its servers and its commands. *)
Record Tidy (flowPath root : string) (w : World) : Prop := mkTidy {
  tidy_path : pathToFlow w = flowPath;
  tidy_root : _root w = root;
  tidy_started : _startedServer w = lastSpawned w;
  tidy_spawned : Forall (fun s => s = [flowPath; "server"; root]) (spawned w);
  tidy_killed :
    Forall (fun k => fst k < List.length (spawned w) /\ snd k = "SIGKILL")
           (killed w);
  tidy_executed : Forall (wellFormedCall flowPath root) (executed w)
}.

(** The exit codes whose status makes the subscription start a server. *)
Definition restartExit (r : option Result) : bool :=
  match r with
  | Some res =>
      match exitCode res with
      | Some c => (c =? 6)%Z || (c =? 9)%Z
      | None => false
      end
  | None => false
  end.

(** The world in which a call of [execFlow] started in [w] enters iteration
    [k], provided the iterations before it were all retried. *)
Fixpoint worldAfter (k : nat) (attempts : nat -> Attempt)
    (args : list string) (options : Options) (w : World) : World :=
  match k with
  | O => w
  | S k' =>
      snd (attempt k' attempts args options
             (worldAfter k' attempts args options w))
  end.

(** The first [k] iterations all failed with a status that allows a retry. *)
Fixpoint allRetried (k : nat) (attempts : nat -> Attempt)
    (args : list string) (options : Options) (w : World) : bool :=
  match k with
  | O => true
  | S k' =>
      allRetried k' attempts args options w
      && match fst (attempt k' attempts args options
                      (worldAfter k' attempts args options w)) with
         | Abrupt _ => true
         | Normal _ => false
         end
      && shouldRetry (worldAfter (S k') attempts args options w)
  end.

(** The supervisor was disposed while the server was busy. *)
Definition disposedBusyWorld : World :=
  run_events [CommandClassified (Some (exited 7)); Disposed] freshWorld.

(** ** The Python package: [pkg/nuclide-python/lib/main.js]

    The module keeps two variables, [busySignalProvider] and
    [pythonLanguageService].  The objects they hold come from other
    packages; the embedding tells objects apart by the order in which
    [new] made them and records the calls of [activate()] and [dispose()]
    made on the language services. *)

Module PythonMain.

Record State := mkState {
  busySignalProvider : option nat;
  pythonLanguageService : option nat;
  providersCreated : nat;
  servicesCreated : nat;
  activatedServices : list nat;
  disposedServices : list nat
}.

(** The module as loaded: both variables are null. *)
Definition initial : State := mkState None None 0 0 [] [].

Definition activate (st : State) : State :=
  let provider := providersCreated st in
  match pythonLanguageService st with
  | None =>
      let service := servicesCreated st in
      mkState (Some provider) (Some service) (S provider) (S service)
              (activatedServices st ++ [service]) (disposedServices st)
  | Some service =>
      mkState (Some provider) (Some service) (S provider)
              (servicesCreated st) (activatedServices st)
              (disposedServices st)
  end.

Definition deactivate (st : State) : State :=
  match pythonLanguageService st with
  | Some service =>
      mkState (busySignalProvider st) None (providersCreated st)
              (servicesCreated st) (activatedServices st)
              (disposedServices st ++ [service])
  | None => st
  end.

Definition provideBusySignal (st : State) : Completion nat :=
  match busySignalProvider st with
  | Some provider => Normal provider
  | None => Abrupt AssertionError
  end.

(** [lint(editor)] of the provider made by [provideLint()]: the busy
    signal provider that [reportBusy] is called on, and the message. *)
Definition lint (title : string) (st : State) : Completion (nat * string) :=
  match busySignalProvider st with
  | Some provider =>
      Normal (provider,
              ("Python: Waiting for flake8 lint results for `" ++ title
               ++ "`")%string)
  | None => Abrupt AssertionError
  end.

Inductive Call := Activate | Deactivate.

Definition run_call (c : Call) (st : State) : State :=
  match c with
  | Activate => activate st
  | Deactivate => deactivate st
  end.

Definition run_calls (calls : list Call) (st : State) : State :=
  fold_left (fun st c => run_call c st) calls st.

Definition isActivate (c : Call) : bool :=
  match c with
  | Activate => true
  | Deactivate => false
  end.


(** The provider in place is the one made last. *)
Definition LatestProvider (st : State) : Prop :=
  busySignalProvider st =
  match providersCreated st with
  | O => None
  | S n => Some n
  end.

End PythonMain.

(** ** Proof automation *)

Ltac unfold_world :=
  unfold onNext, onCompleted, restartSubscriber, _startFlowServer, emit, log,
    set_serverStatus, set_startedServer, set_emitted, set_startsInFlight,
    set_spawned, set_killed, set_rawExecCalls, set_executed, set_logged,
    startsInvoked, getValue, stopped in *.

Ltac split_cases :=
  repeat match goal with
         | |- context [if ?b then _ else _] => destruct b eqn:?
         | |- context [match ?x with _ => _ end] => destruct x eqn:?
         end.

(** ** The exit-code classifier *)

Lemma chooseStatus_table (result : option Result) (w : World) :
  fst (chooseStatus result w) = Normal (Some (classification_table result)).
Proof.
  destruct result as [[[z|] so se]|]; try reflexivity.
  destruct z as [|p|p]; try reflexivity;
    do 4 (try (destruct p as [p|p|]; try reflexivity)).
Qed.

Lemma chooseStatus_world (result : option Result) (w : World) :
  _serverStatus (snd (chooseStatus result w)) = _serverStatus w /\
  emitted (snd (chooseStatus result w)) = emitted w /\
  startsInFlight (snd (chooseStatus result w)) = startsInFlight w /\
  spawned (snd (chooseStatus result w)) = spawned w /\
  killed (snd (chooseStatus result w)) = killed w /\
  rawExecCalls (snd (chooseStatus result w)) = rawExecCalls w /\
  executed (snd (chooseStatus result w)) = executed w /\
  _startedServer (snd (chooseStatus result w)) = _startedServer w.
Proof.
  destruct result as [r|]; [|repeat split].
  unfold chooseStatus.
  repeat match goal with
         | |- context [if ?b then _ else _] => destruct b
         end; repeat split.
Qed.

(** What [_updateServerStatus] comes to: it never throws, and it hands the
    status of the table to [onNext] unless that is the current value. *)
Lemma _updateServerStatus_eq (result : option Result) (w : World) :
  _updateServerStatus result w =
  (Normal tt,
   let w1 := snd (chooseStatus result w) in
   if classification_table result =? getValue w1 then w1
   else onNext (classification_table result) w1).
Proof.
  unfold _updateServerStatus, bind.
  pose proof (chooseStatus_table result w) as Hs.
  destruct (chooseStatus result w) as [c w1]. simpl in Hs. subst c. simpl.
  destruct (classification_table result =? getValue w1); reflexivity.
Qed.

(** The value of the subject once [_updateServerStatus] is through. *)
Lemma updateServerStatus_value (result : option Result) (w : World) :
  getValue (snd (_updateServerStatus result w)) =
    (if stopped w then getValue w else classification_table result).
Proof.
  rewrite _updateServerStatus_eq. cbn [snd].
  destruct (chooseStatus_world result w) as (Hs & _).
  cbv zeta.
  destruct (String.eqb_spec (classification_table result)
              (getValue (snd (chooseStatus result w)))) as [E|E].
  - unfold getValue, stopped in *. rewrite Hs in *.
    destruct (isStopped (_serverStatus w)); congruence.
  - unfold onNext, stopped, getValue. rewrite !Hs.
    destruct (isStopped (_serverStatus w)) eqn:St; [now rewrite Hs|].
    unfold restartSubscriber.
    destruct (classification_table result =? "not running"); reflexivity.
Qed.

(** C2: the status [_updateServerStatus] chooses is the one of the table
    (null: 'not installed'; 0 or 2: 'ready'; 1: 'init'; 6: 'not running';
    7: 'busy'; 9: 'not running'; anything else: 'unknown'), and it is the
    value of the subject afterwards, a completed subject keeping its value. *)
Theorem updateServerStatus_table (result : option Result) (w : World) :
  fst (chooseStatus result w) = Normal (Some (classification_table result)) /\
  fst (_updateServerStatus result w) = Normal tt /\
  getValue (snd (_updateServerStatus result w)) =
    (if stopped w then getValue w else classification_table result).
Proof.
  split; [apply chooseStatus_table|].
  split; [now rewrite _updateServerStatus_eq|].
  apply updateServerStatus_value.
Qed.

(** C10: whatever the argument (null, or an object with any exit code or
    none), the classifier assigns a status, so [invariant(status != null)]
    holds and [_updateServerStatus] completes normally. *)
Theorem updateServerStatus_total (result : option Result) (w : World) :
  (exists status w', chooseStatus result w = (Normal (Some status), w')) /\
  (exists w', _updateServerStatus result w = (Normal tt, w')).
Proof.
  split.
  - exists (classification_table result), (snd (chooseStatus result w)).
    rewrite <- chooseStatus_table with (w := w).
    destruct (chooseStatus result w); reflexivity.
  - rewrite _updateServerStatus_eq. eexists. reflexivity.
Qed.

(** ** The invariant of the status channel *)

Lemma nextValues_app (l1 l2 : list Notification) :
  nextValues (l1 ++ l2) = nextValues l1 ++ nextValues l2.
Proof.
  induction l1 as [|[x|] l1 IH]; simpl; [reflexivity| |assumption].
  now rewrite IH.
Qed.

Lemma last_nonempty (a d d' : ServerStatus) (l : list ServerStatus) :
  last (a :: l) d = last (a :: l) d'.
Proof.
  revert a. induction l as [|b l IH]; intros a; [reflexivity|].
  change (last (b :: l) d = last (b :: l) d'). apply IH.
Qed.

Lemma noRepeat_snoc (prev x : ServerStatus) (l : list ServerStatus) :
  noRepeat prev l = true ->
  x <> last l prev ->
  noRepeat prev (l ++ [x]) = true.
Proof.
  revert prev. induction l as [|y l IH]; intros prev Hl Hx.
  - simpl in *. destruct (String.eqb_spec x prev); [contradiction|reflexivity].
  - simpl in Hl. apply andb_true_iff in Hl as [Hy Hl].
    simpl. rewrite Hy. simpl. apply IH; [assumption|].
    destruct l as [|z l]; [exact Hx|].
    rewrite (last_nonempty z y prev). exact Hx.
Qed.

(** The invariant only reads the subject, the notifications and the
    number of starts. *)
Lemma Inv_frame (w w' : World) :
  _serverStatus w' = _serverStatus w ->
  emitted w' = emitted w ->
  startsInvoked w' = startsInvoked w ->
  Inv w -> Inv w'.
Proof.
  intros Hs He Hn [H1 H2 H3 H4].
  split; unfold getValue, stopped in *; rewrite ?Hs, ?He, ?Hn; assumption.
Qed.

Lemma Inv_constructor (flowPath root : string) : Inv (constructor flowPath root).
Proof. split; try reflexivity. discriminate. Qed.

Lemma Inv_onNext (x : ServerStatus) (w : World) :
  x <> getValue w -> x <> "failed" -> Inv w -> Inv (onNext x w).
Proof.
  intros Hx Hf HI. unfold onNext.
  destruct (stopped w) eqn:St; [assumption|].
  destruct HI as [H1 H2 H3 H4].
  assert (Hv : nextValues (emitted w ++ [OnNext x]) =
               nextValues (emitted w) ++ [x])
    by (rewrite nextValues_app; reflexivity).
  assert (Hc : count_occ string_dec (nextValues (emitted w) ++ [x])
                 "not running" =
               count_occ string_dec (nextValues (emitted w)) "not running"
               + (if x =? "not running" then 1 else 0)).
  { rewrite count_occ_app. simpl.
    destruct (string_dec x "not running") as [E|E];
      destruct (String.eqb_spec x "not running");
      try reflexivity; contradiction. }
  assert (Hcommon :
    noRepeat "unknown" (nextValues (emitted w ++ [OnNext x])) = true /\
    last (nextValues (emitted w ++ [OnNext x])) "unknown" = x).
  { rewrite Hv. split; [|apply last_last].
    apply noRepeat_snoc; [assumption|]. rewrite H2. assumption. }
  destruct Hcommon as [Hn Hl].
  unfold restartSubscriber.
  destruct (x =? "not running"); split; unfold_world; cbn in *;
    try assumption; try (intros; congruence);
    rewrite Hv, Hc, <- H4; lia.
Qed.

Lemma Inv_onCompleted (w : World) : Inv w -> Inv (onCompleted w).
Proof.
  intros HI. unfold onCompleted.
  destruct (stopped w) eqn:St; [assumption|].
  destruct HI as [H1 H2 H3 H4].
  assert (Hv : nextValues (emitted w ++ [OnCompleted]) = nextValues (emitted w))
    by (rewrite nextValues_app; apply app_nil_r).
  split; unfold_world; cbn in *; rewrite ?Hv; auto.
Qed.

Lemma Inv_updateServerStatus (result : option Result) (w : World) :
  Inv w -> Inv (snd (_updateServerStatus result w)).
Proof.
  intros HI. rewrite _updateServerStatus_eq. cbn [snd]. cbv zeta.
  destruct (chooseStatus_world result w) as (Hs & He & Hf & Hp & _).
  assert (HI1 : Inv (snd (chooseStatus result w))).
  { apply Inv_frame with w; try assumption.
    unfold startsInvoked. now rewrite Hf, Hp. }
  destruct (String.eqb_spec (classification_table result)
              (getValue (snd (chooseStatus result w)))) as [E|E];
    [assumption|].
  apply Inv_onNext; try assumption.
  pose proof (chooseStatus_table result w) as Ht.
  destruct result as [[[z|] so se]|]; try discriminate.
  destruct z as [|p|p]; try discriminate;
    do 4 (try (destruct p as [p|p|]; try discriminate)).
Qed.

Lemma Inv_fail (w : World) : Inv w -> Inv (onCompleted (onNext "failed" w)).
Proof.
  intros HI. unfold onNext, onCompleted.
  destruct (stopped w) eqn:St; [rewrite St; assumption|].
  change (restartSubscriber "failed" ?X) with X.
  destruct HI as [H1 H2 H3 H4].
  assert (Hne : "failed" <> getValue w).
  { intros E. symmetry in E. apply H3 in E. congruence. }
  assert (Hv : nextValues ((emitted w ++ [OnNext "failed"]) ++ [OnCompleted])
               = nextValues (emitted w) ++ ["failed"])
    by (rewrite !nextValues_app; simpl; now rewrite app_nil_r).
  split; unfold emit, set_emitted, set_serverStatus, stopped, getValue,
           startsInvoked;
    cbn [emitted _serverStatus value isStopped startsInFlight spawned];
    rewrite ?Hv.
  - apply noRepeat_snoc; [assumption|]. now rewrite H2.
  - apply last_last.
  - reflexivity.
  - rewrite count_occ_app, <- H4.
    replace (count_occ string_dec ["failed"] "not running") with 0;
      [apply plus_n_O|].
    simpl. destruct (string_dec "failed" "not running");
      [discriminate|reflexivity].
Qed.

Lemma Inv_onExit (code : option Z) (signal : option string) (w : World) :
  Inv w -> Inv (onExit code signal w).
Proof.
  intros HI. unfold onExit.
  destruct (strictEq code 2 && _); [|assumption].
  apply Inv_fail. apply Inv_frame with w; auto.
Qed.

Lemma Inv_resume (w : World) : Inv w -> Inv (_startFlowServer_resume w).
Proof.
  intros HI. unfold _startFlowServer_resume.
  destruct (startsInFlight w) eqn:E; [assumption|].
  apply Inv_frame with w; try reflexivity; [|assumption].
  unfold_world. cbn. rewrite E, length_app. simpl. lia.
Qed.

Lemma Inv_dispose (w : World) : Inv w -> Inv (dispose w).
Proof.
  intros HI. apply Inv_onCompleted in HI. unfold dispose.
  destruct (_startedServer (onCompleted w)); [|assumption].
  apply Inv_frame with (onCompleted w); auto.
Qed.

Lemma Inv_run_event (ev : Event) (w : World) : Inv w -> Inv (run_event ev w).
Proof.
  intros HI. destruct ev as [r| |p code signal|]; simpl.
  - now apply Inv_updateServerStatus.
  - now apply Inv_resume.
  - destruct (p <? List.length (spawned w))%nat;
      [now apply Inv_onExit|assumption].
  - now apply Inv_dispose.
Qed.

Lemma Inv_run_events (evs : list Event) (w : World) :
  Inv w -> Inv (run_events evs w).
Proof.
  revert w. induction evs as [|ev evs IH]; intros w HI; [assumption|].
  apply IH. now apply Inv_run_event.
Qed.

(** ** What events leave alone *)

Lemma SameCommands_trans (w1 w2 w3 : World) :
  SameCommands w1 w2 -> SameCommands w2 w3 -> SameCommands w1 w3.
Proof. intros [A B] [C D]. split; congruence. Qed.

Lemma SameCommands_onNext (x : ServerStatus) (w : World) :
  SameCommands w (onNext x w).
Proof. unfold_world. split_cases; split; reflexivity. Qed.

Lemma SameCommands_onCompleted (w : World) : SameCommands w (onCompleted w).
Proof. unfold_world. split_cases; split; reflexivity. Qed.

Lemma SameCommands_updateServerStatus (result : option Result) (w : World) :
  SameCommands w (snd (_updateServerStatus result w)).
Proof.
  rewrite _updateServerStatus_eq. cbn [snd]. cbv zeta.
  destruct (chooseStatus_world result w) as (_ & _ & _ & _ & _ & Hr & He & _).
  apply SameCommands_trans with (snd (chooseStatus result w));
    [split; assumption|].
  destruct (_ =? _); [split; reflexivity|apply SameCommands_onNext].
Qed.

Lemma SameCommands_run_event (ev : Event) (w : World) :
  SameCommands w (run_event ev w).
Proof.
  destruct ev as [r| |p code signal|]; simpl.
  - apply SameCommands_updateServerStatus.
  - unfold _startFlowServer_resume. split_cases; split; reflexivity.
  - unfold onExit. split_cases; try (split; reflexivity).
    eapply SameCommands_trans; [|apply SameCommands_onCompleted].
    eapply SameCommands_trans; [|apply SameCommands_onNext].
    split; reflexivity.
  - unfold dispose.
    destruct (_startedServer (onCompleted w));
      (eapply SameCommands_trans; [apply SameCommands_onCompleted|]);
      split; reflexivity.
Qed.

Lemma SameCommands_run_events (evs : list Event) (w : World) :
  SameCommands w (run_events evs w).
Proof.
  revert w. induction evs as [|ev evs IH]; intros w; [split; reflexivity|].
  eapply SameCommands_trans; [apply SameCommands_run_event|apply IH].
Qed.

(** ** A completed subject *)

Lemma Silent_trans (w1 w2 w3 : World) :
  Silent w1 w2 -> Silent w2 w3 -> Silent w1 w3.
Proof. intros [A B] [C D]. split; congruence. Qed.

Lemma Silent_stopped (w w' : World) :
  Silent w w' -> stopped w = true -> stopped w' = true.
Proof. intros [_ H] St. unfold stopped in *. now rewrite H. Qed.

Lemma Silent_onNext (x : ServerStatus) (w : World) :
  stopped w = true -> Silent w (onNext x w).
Proof. intros St. unfold onNext. rewrite St. split; reflexivity. Qed.

Lemma Silent_onCompleted (w : World) :
  stopped w = true -> Silent w (onCompleted w).
Proof. intros St. unfold onCompleted. rewrite St. split; reflexivity. Qed.

Lemma Silent_updateServerStatus (result : option Result) (w : World) :
  stopped w = true -> Silent w (snd (_updateServerStatus result w)).
Proof.
  intros St. rewrite _updateServerStatus_eq. cbn [snd]. cbv zeta.
  destruct (chooseStatus_world result w) as (Hs & He & _).
  assert (H1 : Silent w (snd (chooseStatus result w))) by (split; assumption).
  destruct (_ =? _); [assumption|].
  eapply Silent_trans; [exact H1|].
  apply Silent_onNext. eapply Silent_stopped; eassumption.
Qed.

Lemma Silent_run_event (ev : Event) (w : World) :
  stopped w = true -> Silent w (run_event ev w).
Proof.
  intros St. destruct ev as [r| |p code signal|]; simpl.
  - now apply Silent_updateServerStatus.
  - unfold _startFlowServer_resume. split_cases; split; reflexivity.
  - unfold onExit. split_cases; try (split; reflexivity).
    assert (H1 : Silent w (log (ErrorServerExited (_root w)) w))
      by (split; reflexivity).
    pose proof (Silent_stopped _ _ H1 St) as St1.
    pose proof (Silent_onNext "failed" _ St1) as H2.
    pose proof (Silent_stopped _ _ H2 St1) as St2.
    eapply Silent_trans; [exact H1|].
    eapply Silent_trans; [exact H2|].
    now apply Silent_onCompleted.
  - unfold dispose. pose proof (Silent_onCompleted w St) as H1.
    destruct (_startedServer (onCompleted w)); [|assumption].
    eapply Silent_trans; [exact H1|]. split; reflexivity.
Qed.

Lemma Silent_run_events (evs : list Event) (w : World) :
  stopped w = true -> Silent w (run_events evs w).
Proof.
  revert w. induction evs as [|ev evs IH]; intros w St; [split; reflexivity|].
  pose proof (Silent_run_event ev w St) as H1.
  eapply Silent_trans; [exact H1|].
  apply IH. eapply Silent_stopped; eassumption.
Qed.

(** ** Raw invocations *)

(** [_rawExecFlow] with its monadic plumbing unfolded. *)
Lemma _rawExecFlow_eq (args : list string) (options : Options)
    (att : Attempt) (w : World) :
  _rawExecFlow args options att w =
  let w1 := run_events (duringInstallCheck att)
              (set_rawExecCalls (S (rawExecCalls w)) w) in
  if installed att then
    let w2 := run_events (duringExecute att)
                (set_executed
                   (executed w1 ++
                    [mkExecCall (pathToFlow w1)
                       (args ++ ["--no-auto-start"; "--from"; "nuclide"])
                       ([("cwd", _root w1)] ++ options)]) w1) in
    match outcome att with
    | Fulfilled result =>
        (Normal (Some result), snd (_updateServerStatus (Some result) w2))
    | Rejected e =>
        (Abrupt (ThrownValue e), snd (_updateServerStatus e w2))
    end
  else (Normal None, w1).
Proof.
  unfold _rawExecFlow, bind, effect, try_catch, _getFlowExecOptions, ret, throw.
  cbv zeta.
  destruct (installed att); [|reflexivity].
  destruct (outcome att) as [result|e]; cbn [thrown_as_result];
    rewrite _updateServerStatus_eq; reflexivity.
Qed.

Lemma rawExecFlow_counts (args : list string) (options : Options)
    (att : Attempt) (w : World) :
  rawExecCalls (snd (_rawExecFlow args options att w)) = S (rawExecCalls w).
Proof.
  rewrite _rawExecFlow_eq. cbv zeta.
  set (w0 := set_rawExecCalls (S (rawExecCalls w)) w).
  destruct (SameCommands_run_events (duringInstallCheck att) w0) as [H1 _].
  destruct (installed att); [|exact H1].
  set (w1 := run_events (duringInstallCheck att) w0) in *.
  set (w1' := set_executed _ w1).
  destruct (SameCommands_run_events (duringExecute att) w1') as [H2 _].
  set (w2 := run_events (duringExecute att) w1') in *.
  destruct (outcome att) as [result|e]; cbn [snd];
    match goal with
    | |- context [_updateServerStatus ?r w2] =>
        destruct (SameCommands_updateServerStatus r w2) as [H3 _]
    end; rewrite H3, H2; exact H1.
Qed.

Lemma Inv_rawExecFlow (args : list string) (options : Options)
    (att : Attempt) (w : World) :
  Inv w -> Inv (snd (_rawExecFlow args options att w)).
Proof.
  intros HI. rewrite _rawExecFlow_eq. cbv zeta.
  assert (H0 : Inv (set_rawExecCalls (S (rawExecCalls w)) w))
    by (apply Inv_frame with w; auto).
  apply Inv_run_events with (evs := duringInstallCheck att) in H0.
  destruct (installed att); [|exact H0].
  set (w1 := run_events (duringInstallCheck att) _) in *.
  match goal with
  | |- context [run_events (duringExecute att) ?w'] =>
      assert (H1 : Inv w') by (apply Inv_frame with w1; auto)
  end.
  apply Inv_run_events with (evs := duringExecute att) in H1.
  destruct (outcome att); cbn [snd]; now apply Inv_updateServerStatus.
Qed.

Lemma Silent_rawExecFlow (args : list string) (options : Options)
    (att : Attempt) (w : World) :
  stopped w = true -> Silent w (snd (_rawExecFlow args options att w)).
Proof.
  intros St. rewrite _rawExecFlow_eq. cbv zeta.
  set (w0 := set_rawExecCalls (S (rawExecCalls w)) w).
  assert (H0 : Silent w w0) by (split; reflexivity).
  pose proof (Silent_stopped _ _ H0 St) as St0.
  pose proof (Silent_run_events (duringInstallCheck att) w0 St0) as H1.
  pose proof (Silent_stopped _ _ H1 St0) as St1.
  set (w1 := run_events (duringInstallCheck att) w0) in *.
  destruct (installed att);
    [|eapply Silent_trans; [exact H0|exact H1]].
  set (w1' := set_executed _ w1).
  assert (H1' : Silent w1 w1') by (split; reflexivity).
  pose proof (Silent_stopped _ _ H1' St1) as St1'.
  pose proof (Silent_run_events (duringExecute att) w1' St1') as H2.
  pose proof (Silent_stopped _ _ H2 St1') as St2.
  set (w2 := run_events (duringExecute att) w1') in *.
  assert (H02 : Silent w w2).
  { eapply Silent_trans; [exact H0|]. eapply Silent_trans; [exact H1|].
    eapply Silent_trans; [exact H1'|exact H2]. }
  destruct (outcome att); cbn [snd];
    (eapply Silent_trans; [exact H02|]);
    now apply Silent_updateServerStatus.
Qed.

(** ** The retry loop *)

Lemma attempt_counts (i : nat) (attempts : nat -> Attempt)
    (args : list string) (options : Options) (w : World) :
  rawExecCalls (snd (attempt i attempts args options w)) = S (rawExecCalls w).
Proof.
  unfold attempt.
  pose proof (rawExecFlow_counts args options (attempts i) w) as H.
  destruct (_rawExecFlow args options (attempts i) w) as [c w1].
  cbn [snd] in *.
  destruct (SameCommands_run_events (beforeResume (attempts i)) w1) as [H1 _].
  congruence.
Qed.

Lemma Inv_attempt (i : nat) (attempts : nat -> Attempt)
    (args : list string) (options : Options) (w : World) :
  Inv w -> Inv (snd (attempt i attempts args options w)).
Proof.
  intros HI. unfold attempt.
  pose proof (Inv_rawExecFlow args options (attempts i) w HI) as H.
  destruct (_rawExecFlow args options (attempts i) w) as [c w1].
  cbn [snd] in *. now apply Inv_run_events.
Qed.

Lemma Silent_attempt (i : nat) (attempts : nat -> Attempt)
    (args : list string) (options : Options) (w : World) :
  stopped w = true -> Silent w (snd (attempt i attempts args options w)).
Proof.
  intros St. unfold attempt.
  pose proof (Silent_rawExecFlow args options (attempts i) w St) as H.
  destruct (_rawExecFlow args options (attempts i) w) as [c w1].
  cbn [snd] in *. eapply Silent_trans; [exact H|].
  apply Silent_run_events. eapply Silent_stopped; eassumption.
Qed.

(** The loop body in terms of [attempt]. *)
Lemma execFlow_loop_step (fuel i : nat) (attempts : nat -> Attempt)
    (args : list string) (options : Options) (logErrors : bool) (w : World) :
  execFlow_loop (S fuel) i attempts args options logErrors w =
  match attempt i attempts args options w with
  | (Normal result, w') => Some (Normal result, w')
  | (Abrupt e, w') =>
      if (i <? maxTries)%nat && shouldRetry w' then
        execFlow_loop fuel (S i) attempts args options logErrors w'
      else
        Some (Abrupt e, if logErrors then log (ErrorFlowFailed args e) w' else w')
  end.
Proof.
  unfold attempt. cbn [execFlow_loop].
  destruct (_rawExecFlow args options (attempts i) w) as [[r|e] w1];
    reflexivity.
Qed.

(** The loop is left before the fuel runs out as soon as the fuel covers
    the iterations up to [maxTries]. *)
Lemma execFlow_loop_returns (fuel i : nat) (attempts : nat -> Attempt)
    (args : list string) (options : Options) (logErrors : bool) (w : World) :
  maxTries <= fuel + i ->
  exists c w', execFlow_loop (S fuel) i attempts args options logErrors w
               = Some (c, w').
Proof.
  revert i w. induction fuel as [|fuel IH]; intros i w Hf;
    rewrite execFlow_loop_step;
    destruct (attempt i attempts args options w) as [[r|e] w1];
    try (eexists; eexists; reflexivity).
  - replace (i <? maxTries)%nat with false
      by (symmetry; apply Nat.ltb_ge; lia).
    eexists; eexists; reflexivity.
  - destruct ((i <? maxTries)%nat && shouldRetry w1);
      [apply IH; lia|eexists; eexists; reflexivity].
Qed.

(** More fuel does not change what the loop returns. *)
Lemma execFlow_loop_fuel (fuel fuel' i : nat) (attempts : nat -> Attempt)
    (args : list string) (options : Options) (logErrors : bool) (w : World)
    (r : Completion (option Result) * World) :
  execFlow_loop fuel i attempts args options logErrors w = Some r ->
  fuel <= fuel' ->
  execFlow_loop fuel' i attempts args options logErrors w = Some r.
Proof.
  revert fuel' i w. induction fuel as [|fuel IH]; intros fuel' i w H Hle;
    [discriminate|].
  destruct fuel' as [|fuel']; [lia|].
  rewrite execFlow_loop_step in *.
  destruct (attempt i attempts args options w) as [[res|e] w1];
    [assumption|].
  destruct ((i <? maxTries)%nat && shouldRetry w1); [|assumption].
  apply IH; [assumption|lia].
Qed.

(** The loop calls [_rawExecFlow] at least once and at most once per
    iteration from [i] to [maxTries]. *)
Lemma execFlow_loop_counts (fuel i : nat) (attempts : nat -> Attempt)
    (args : list string) (options : Options) (logErrors : bool)
    (w w' : World) (c : Completion (option Result)) :
  execFlow_loop fuel i attempts args options logErrors w = Some (c, w') ->
  rawExecCalls w < rawExecCalls w' /\
  rawExecCalls w' <= rawExecCalls w + Nat.max 1 (S maxTries - i).
Proof.
  revert i w. induction fuel as [|fuel IH]; intros i w H; [discriminate|].
  rewrite execFlow_loop_step in H.
  pose proof (attempt_counts i attempts args options w) as Hc.
  destruct (attempt i attempts args options w) as [[res|e] w1];
    cbn [snd] in Hc.
  - injection H as <- <-. lia.
  - destruct (i <? maxTries)%nat eqn:Hi; cbn [andb] in H.
    + apply Nat.ltb_lt in Hi.
      destruct (shouldRetry w1).
      * apply IH in H. lia.
      * injection H as <- <-.
        destruct logErrors; unfold log, set_logged; cbn [rawExecCalls]; lia.
    + injection H as <- <-.
      destruct logErrors; unfold log, set_logged; cbn [rawExecCalls]; lia.
Qed.

Lemma Inv_execFlow_loop (fuel i : nat) (attempts : nat -> Attempt)
    (args : list string) (options : Options) (logErrors : bool)
    (w w' : World) (c : Completion (option Result)) :
  execFlow_loop fuel i attempts args options logErrors w = Some (c, w') ->
  Inv w -> Inv w'.
Proof.
  revert i w. induction fuel as [|fuel IH]; intros i w H HI; [discriminate|].
  rewrite execFlow_loop_step in H.
  pose proof (Inv_attempt i attempts args options w HI) as H1.
  destruct (attempt i attempts args options w) as [[res|e] w1];
    cbn [snd] in H1.
  - injection H as <- <-. assumption.
  - destruct ((i <? maxTries)%nat && shouldRetry w1).
    + eapply IH; eassumption.
    + injection H as <- <-.
      destruct logErrors; [|assumption].
      apply Inv_frame with w1; auto.
Qed.

Lemma Silent_execFlow_loop (fuel i : nat) (attempts : nat -> Attempt)
    (args : list string) (options : Options) (logErrors : bool)
    (w w' : World) (c : Completion (option Result)) :
  execFlow_loop fuel i attempts args options logErrors w = Some (c, w') ->
  stopped w = true -> Silent w w'.
Proof.
  revert i w. induction fuel as [|fuel IH]; intros i w H St; [discriminate|].
  rewrite execFlow_loop_step in H.
  pose proof (Silent_attempt i attempts args options w St) as H1.
  destruct (attempt i attempts args options w) as [[res|e] w1];
    cbn [snd] in H1.
  - injection H as <- <-. assumption.
  - pose proof (Silent_stopped _ _ H1 St) as St1.
    destruct ((i <? maxTries)%nat && shouldRetry w1).
    + eapply Silent_trans; [exact H1|]. eapply IH; eassumption.
    + injection H as <- <-.
      destruct logErrors; [|assumption].
      eapply Silent_trans; [exact H1|]. split; reflexivity.
Qed.

(** ** Sequences of operations *)

Lemma Inv_perform (op : Operation) (w : World) : Inv w -> Inv (perform op w).
Proof.
  intros HI.
  destruct op as [ev|args options att|fuel attempts args options file logErrors];
    simpl.
  - now apply Inv_run_event.
  - now apply Inv_rawExecFlow.
  - unfold execFlow. destruct (getValue w =? "failed"); [assumption|].
    destruct (execFlow_loop fuel 0 attempts args options logErrors w)
      as [[c w']|] eqn:E; [|assumption].
    eapply Inv_execFlow_loop; eassumption.
Qed.

Lemma Inv_perform_all (ops : list Operation) (w : World) :
  Inv w -> Inv (perform_all ops w).
Proof.
  revert w. induction ops as [|op ops IH]; intros w HI; [assumption|].
  apply IH. now apply Inv_perform.
Qed.

Lemma Silent_perform (op : Operation) (w : World) :
  stopped w = true -> Silent w (perform op w).
Proof.
  intros St.
  destruct op as [ev|args options att|fuel attempts args options file logErrors];
    simpl.
  - now apply Silent_run_event.
  - now apply Silent_rawExecFlow.
  - unfold execFlow.
    destruct (getValue w =? "failed"); [split; reflexivity|].
    destruct (execFlow_loop fuel 0 attempts args options logErrors w)
      as [[c w']|] eqn:E; [|split; reflexivity].
    eapply Silent_execFlow_loop; eassumption.
Qed.

Lemma Silent_perform_all (ops : list Operation) (w : World) :
  stopped w = true -> Silent w (perform_all ops w).
Proof.
  revert w. induction ops as [|op ops IH]; intros w St; [split; reflexivity|].
  pose proof (Silent_perform op w St) as H1.
  eapply Silent_trans; [exact H1|].
  apply IH. eapply Silent_stopped; eassumption.
Qed.

(** ** Where a call of [execFlow] stands at each iteration *)

Lemma ReachesAttempt_loop (attempts : nat -> Attempt) (args : list string)
    (options : Options) (w0 : World) (i : nat) (w : World) :
  ReachesAttempt attempts args options w0 i w ->
  i <= maxTries /\
  rawExecCalls w = rawExecCalls w0 + i /\
  forall fuel file logErrors,
    execFlow (fuel + i) attempts args options file logErrors w0 =
    execFlow_loop fuel i attempts args options logErrors w.
Proof.
  induction 1 as [Hnf|i w e w' _ (IHle & IHc & IH) Ha Hi Hr].
  - repeat split; [unfold maxTries; lia|lia|].
    intros fuel file logErrors. unfold execFlow.
    destruct (String.eqb_spec (getValue w0) "failed"); [contradiction|].
    now rewrite Nat.add_0_r.
  - pose proof (attempt_counts i attempts args options w) as Hc.
    rewrite Ha in Hc. cbn [snd] in Hc.
    repeat split; [lia|lia|].
    intros fuel file logErrors.
    replace (fuel + S i) with (S fuel + i) by lia.
    rewrite IH, execFlow_loop_step, Ha, Hr.
    apply Nat.ltb_lt in Hi. now rewrite Hi.
Qed.

Lemma shouldRetry_spec (w : World) :
  shouldRetry w = true <-> In (getValue w) ["not running"; "init"; "busy"].
Proof.
  unfold shouldRetry. cbn [indexOf In].
  destruct (String.eqb_spec "not running" (getValue w)) as [E1|E1];
    [split; [intros _; left; exact E1|reflexivity]|].
  destruct (String.eqb_spec "init" (getValue w)) as [E2|E2];
    [split; [intros _; right; left; exact E2|reflexivity]|].
  destruct (String.eqb_spec "busy" (getValue w)) as [E3|E3];
    [split; [intros _; right; right; left; exact E3|reflexivity]|].
  split; [discriminate|]. intros [H|[H|[H|[]]]]; contradiction.
Qed.

(** ** execFlow *)

(** With fuel for [maxTries + 1] iterations [execFlow] always returns. *)
Lemma execFlow_returns (fuel : nat) (attempts : nat -> Attempt)
    (args : list string) (options : Options) (file : string)
    (logErrors : bool) (w : World) :
  maxTries < fuel ->
  exists c w', execFlow fuel attempts args options file logErrors w
               = Some (c, w').
Proof.
  intros Hf. unfold execFlow.
  destruct (getValue w =? "failed"); [eexists; eexists; reflexivity|].
  destruct fuel as [|fuel]; [lia|].
  apply execFlow_loop_returns. lia.
Qed.

(** No call makes more than [maxTries + 1] raw invocations. *)
Lemma execFlow_at_most_six (fuel : nat) (attempts : nat -> Attempt)
    (args : list string) (options : Options) (file : string)
    (logErrors : bool) (w w' : World) (c : Completion (option Result)) :
  execFlow fuel attempts args options file logErrors w = Some (c, w') ->
  rawExecCalls w' <= rawExecCalls w + 6.
Proof.
  unfold execFlow. destruct (getValue w =? "failed").
  - intros H. injection H as <- <-. lia.
  - intros H. apply execFlow_loop_counts in H. unfold maxTries in H.
    simpl in H. lia.
Qed.

(** Four failures with status 'busy' and then a success: the fifth
    attempt's result is returned. *)
Lemma execFlow_fifth_attempt_succeeds :
  let r := execFlow 6
             (fun i => if (i <? 4)%nat then busyAttempt else okAttempt)
             ["check"] [] "a.js" true freshWorld in
  option_map fst r = Some (Normal (Some (exited 0))) /\
  option_map (fun cw => rawExecCalls (snd cw)) r = Some 5.
Proof. vm_compute. split; reflexivity. Qed.

(** C1: a command that fails with exit code 7 every time is run six times
    by one call of [execFlow]: iterations [i = 0 .. 5], the test
    [i < maxTries] coming after the attempt. *)
Theorem execFlow_six_raw_invocations :
  let r := execFlow 6 (fun _ => busyAttempt) ["check"] [] "a.js" true
             freshWorld in
  option_map fst r = Some (Abrupt (ThrownValue (Some (exited 7)))) /\
  option_map (fun cw => rawExecCalls (snd cw)) r = Some 6 /\
  option_map (fun cw => List.length (executed (snd cw))) r = Some 6 /\
  option_map (fun cw => getValue (snd cw)) r = Some "busy".
Proof. vm_compute. repeat split; reflexivity. Qed.

(** C4: called while the status is 'failed', [execFlow] returns null and
    leaves the world as it found it: no raw invocation, no process. *)
Theorem execFlow_failed_returns_null (fuel : nat) (attempts : nat -> Attempt)
    (args : list string) (options : Options) (file : string)
    (logErrors : bool) (w : World) :
  getValue w = "failed" ->
  execFlow fuel attempts args options file logErrors w = Some (Normal None, w).
Proof. intros H. unfold execFlow. now rewrite H. Qed.

Lemma execFlow_failed_returns_null_witness :
  getValue crashedWorld = "failed" /\
  execFlow 6 (fun _ => okAttempt) ["check"] [] "a.js" true crashedWorld
  = Some (Normal None, crashedWorld).
Proof.
  split; [vm_compute; reflexivity|].
  apply (execFlow_failed_returns_null 6 (fun _ => okAttempt) ["check"] []
           "a.js" true crashedWorld).
  vm_compute; reflexivity.
Defined.

(** C7: at whatever iteration a call of [execFlow] stands, if the raw
    invocation fails and the status then read is none of 'not running',
    'init', 'busy', the call throws that error, logging it exactly when
    [logErrors] is set, and no further raw invocation is made; if the raw
    invocation succeeds, the call returns its result. *)
Theorem execFlow_rethrows_or_returns (fuel : nat) (attempts : nat -> Attempt)
    (args : list string) (options : Options) (file : string)
    (logErrors : bool) (w0 : World) (i : nat) (w : World) :
  maxTries < fuel ->
  ReachesAttempt attempts args options w0 i w ->
  (forall e w',
     attempt i attempts args options w = (Abrupt e, w') ->
     ~ In (getValue w') ["not running"; "init"; "busy"] ->
     execFlow fuel attempts args options file logErrors w0 =
       Some (Abrupt e,
             if logErrors then log (ErrorFlowFailed args e) w' else w') /\
     rawExecCalls w' = rawExecCalls w0 + S i) /\
  (forall r w',
     attempt i attempts args options w = (Normal r, w') ->
     execFlow fuel attempts args options file logErrors w0 =
       Some (Normal r, w') /\
     rawExecCalls w' = rawExecCalls w0 + S i).
Proof.
  intros Hf HR.
  destruct (ReachesAttempt_loop _ _ _ _ _ _ HR) as (Hi & Hc & Hloop).
  assert (Hfuel : fuel = S (fuel - S i) + i) by lia.
  pose proof (attempt_counts i attempts args options w) as Hn.
  split.
  - intros e w' Ha Hnr. rewrite Ha in Hn. cbn [snd] in Hn.
    split; [|lia].
    rewrite Hfuel, Hloop, execFlow_loop_step, Ha.
    destruct (shouldRetry w') eqn:Hs;
      [apply shouldRetry_spec in Hs; contradiction|].
    now rewrite andb_false_r.
  - intros r w' Ha. rewrite Ha in Hn. cbn [snd] in Hn.
    split; [|lia].
    now rewrite Hfuel, Hloop, execFlow_loop_step, Ha.
Qed.

Lemma execFlow_rethrows_or_returns_witness :
  execFlow 6 (fun _ => typeErrorAttempt) ["check"] [] "a.js" false freshWorld
  = Some (Abrupt (ThrownValue (Some (exited 2))),
          snd (attempt 0 (fun _ => typeErrorAttempt) ["check"] [] freshWorld))
  /\ rawExecCalls
       (snd (attempt 0 (fun _ => typeErrorAttempt) ["check"] [] freshWorld))
     = 1.
Proof.
  assert (Hfuel : maxTries < 6) by (unfold maxTries; lia).
  assert (HR : ReachesAttempt (fun _ => typeErrorAttempt) ["check"] []
                 freshWorld 0 freshWorld)
    by (apply RA_first; discriminate).
  destruct (execFlow_rethrows_or_returns 6 (fun _ => typeErrorAttempt)
              ["check"] [] "a.js" false freshWorld 0 freshWorld Hfuel HR)
    as [Hthrow _].
  apply (Hthrow (ThrownValue (Some (exited 2)))
           (snd (attempt 0 (fun _ => typeErrorAttempt) ["check"] []
                   freshWorld))).
  - vm_compute; reflexivity.
  - vm_compute. intros [H|[H|[H|[]]]]; discriminate H.
Defined.

(** ** Raw invocations without an executable *)

(** C5: when [isFlowInstalled()] answers false, [_rawExecFlow] returns null
    and executes nothing, but it returns before [_updateServerStatus] is
    reached: the subject keeps its value (here 'unknown') and no
    'not installed' is sent. *)
Theorem rawExecFlow_not_installed_keeps_status :
  (forall args options outcome evs1 evs2 w,
     let r := _rawExecFlow args options
                (mkAttempt false outcome [] evs1 evs2) w in
     fst r = Normal None /\
     executed (snd r) = executed w /\
     spawned (snd r) = spawned w /\
     _serverStatus (snd r) = _serverStatus w /\
     emitted (snd r) = emitted w) /\
  getValue (snd (_rawExecFlow ["check"] [] notInstalledAttempt freshWorld))
    = "unknown".
Proof.
  split; [|vm_compute; reflexivity].
  intros args options outcome evs1 evs2 w r. subst r.
  rewrite _rawExecFlow_eq. repeat split.
Qed.

(** ** The exit handler of a started server *)

(** C3: on a live channel, a server exit with code 2 and no signal sets the
    status to 'failed' and completes the channel (subscribers receive
    'failed', then the completion); an exit with a null code and a signal
    changes nothing, and the channel stays open. *)
Theorem server_exit_crash_or_kill (w : World) :
  stopped w = false ->
  (getValue (onExit (Some 2%Z) None w) = "failed" /\
   stopped (onExit (Some 2%Z) None w) = true /\
   emitted (onExit (Some 2%Z) None w)
   = emitted w ++ [OnNext "failed"; OnCompleted]) /\
  (forall signal : string,
     onExit None (Some signal) w = w /\
     stopped (onExit None (Some signal) w) = false).
Proof.
  intros St. split.
  - unfold onExit. cbn [strictEq Z.eqb Pos.eqb andb].
    unfold onNext, onCompleted.
    change (stopped (log (ErrorServerExited (_root w)) w)) with (stopped w).
    rewrite St.
    change (restartSubscriber "failed" ?X) with X.
    unfold emit, set_emitted, set_serverStatus, log, set_logged, stopped,
      getValue.
    cbn [emitted _serverStatus value isStopped].
    repeat split. now rewrite <- app_assoc.
  - intros signal. split; [reflexivity|exact St].
Qed.

Lemma server_exit_crash_or_kill_witness :
  stopped servingWorld = false /\
  getValue (onExit (Some 2%Z) None servingWorld) = "failed" /\
  onExit None (Some "SIGTERM") servingWorld = servingWorld.
Proof.
  assert (St : stopped servingWorld = false) by (vm_compute; reflexivity).
  destruct (server_exit_crash_or_kill servingWorld St)
    as [(Hfailed & _) Hkill].
  split; [exact St|]. split; [exact Hfailed|].
  exact (proj1 (Hkill "SIGTERM")).
Defined.

(** ** Notifications *)

Lemma updateServerStatus_emitted (result : option Result) (w : World) :
  emitted (snd (_updateServerStatus result w)) =
  emitted w ++
  (if stopped w || (classification_table result =? getValue w) then []
   else [OnNext (classification_table result)]).
Proof.
  rewrite _updateServerStatus_eq. cbn [snd]. cbv zeta.
  destruct (chooseStatus_world result w) as (Hs & He & _).
  unfold getValue, stopped, onNext. rewrite !Hs.
  destruct (classification_table result =? value (_serverStatus w)).
  - rewrite orb_true_r, app_nil_r. exact He.
  - rewrite orb_false_r.
    unfold stopped. rewrite Hs.
    destruct (isStopped (_serverStatus w)); [now rewrite app_nil_r|].
    unfold restartSubscriber, _startFlowServer, emit, set_emitted,
      set_serverStatus, set_startsInFlight.
    destruct (_ =? "not running"); cbn [emitted]; now rewrite He.
Qed.

(** C6: whatever is done to a supervisor after its construction (commands
    classified, servers spawned or exited, calls of [_rawExecFlow] and
    [execFlow], disposal, in any order), no [onNext] value that the
    subscribers received equals the value that was current before it, the
    subject's value is the last one they received, and a classification
    alone sends its status only when it differs from the current value. *)
Theorem status_never_repeated (flowPath root : string) (ops : list Operation) :
  noRepeat "unknown"
    (nextValues (emitted (perform_all ops (constructor flowPath root))))
  = true /\
  last (nextValues (emitted (perform_all ops (constructor flowPath root))))
       "unknown"
  = getValue (perform_all ops (constructor flowPath root)) /\
  (forall result w,
     emitted (snd (_updateServerStatus result w)) =
     emitted w ++
     (if stopped w || (classification_table result =? getValue w) then []
      else [OnNext (classification_table result)])).
Proof.
  destruct (Inv_perform_all ops _ (Inv_constructor flowPath root))
    as [H1 H2 _ _].
  split; [exact H1|]. split; [exact H2|].
  apply updateServerStatus_emitted.
Qed.

(** ** Starting servers *)

(** Classifying the same result a second time changes nothing but the log. *)
Lemma updateServerStatus_again (result : option Result) (w : World) :
  let w1 := snd (_updateServerStatus result w) in
  snd (_updateServerStatus result w1) = snd (chooseStatus result w1).
Proof.
  cbv zeta.
  pose proof (updateServerStatus_value result w) as Hv.
  set (w1 := snd (_updateServerStatus result w)) in *.
  assert (Hst : stopped w1 = stopped w).
  { subst w1. rewrite _updateServerStatus_eq. cbn [snd]. cbv zeta.
    destruct (chooseStatus_world result w) as (Hs & _).
    destruct (_ =? _); unfold stopped, onNext; rewrite ?Hs; [reflexivity|].
    unfold stopped. rewrite Hs.
    destruct (isStopped (_serverStatus w)) eqn:E; [now rewrite Hs|].
    unfold restartSubscriber. destruct (_ =? "not running"); reflexivity. }
  rewrite _updateServerStatus_eq. cbn [snd]. cbv zeta.
  destruct (chooseStatus_world result w1) as (Hs & _).
  unfold getValue at 1. rewrite Hs. fold (getValue w1).
  destruct (String.eqb_spec (classification_table result) (getValue w1))
    as [E|E]; [reflexivity|].
  unfold onNext, stopped. rewrite Hs. fold (stopped w1).
  rewrite Hst. destruct (stopped w); [reflexivity|]. congruence.
Qed.

(** C8, as the code has it: every 'not running' that the subscribers
    receive calls [_startFlowServer] once, so the calls made so far (in
    flight or resolved) are as many as the 'not running' notifications;
    the same classification arriving twice in a row starts nothing the
    second time. *)
Theorem start_per_not_running_notification (flowPath root : string)
    (ops : list Operation) :
  startsInvoked (perform_all ops (constructor flowPath root)) =
  count_occ string_dec
    (nextValues (emitted (perform_all ops (constructor flowPath root))))
    "not running" /\
  (forall result w,
     startsInvoked
       (run_events [CommandClassified result; CommandClassified result] w)
     = startsInvoked (run_events [CommandClassified result] w)).
Proof.
  destruct (Inv_perform_all ops _ (Inv_constructor flowPath root))
    as [_ _ _ H4].
  split; [exact H4|].
  intros result w. cbn [run_events fold_left run_event].
  rewrite updateServerStatus_again.
  destruct (chooseStatus_world result (snd (_updateServerStatus result w)))
    as (_ & _ & Hf & Hp & _).
  unfold startsInvoked. now rewrite Hf, Hp.
Qed.

(** C8, as the claim has it, fails: exit codes 6, 7 and 6 arriving before
    any spawn has resolved leave two calls of [_startFlowServer] in flight,
    and both go on to spawn a server. *)
Lemma two_starts_in_flight :
  startsInFlight (run_events racingCommands freshWorld) = 2 /\
  ~ startsInFlight (run_events racingCommands freshWorld) <= 1 /\
  spawned (run_events (racingCommands ++ [SpawnResolved; SpawnResolved])
             freshWorld)
  = [["flow"; "server"; "/proj"]; ["flow"; "server"; "/proj"]].
Proof.
  assert (H : startsInFlight (run_events racingCommands freshWorld) = 2)
    by (vm_compute; reflexivity).
  split; [exact H|]. split; [rewrite H; lia|].
  vm_compute; reflexivity.
Qed.

(** ** Disposal *)

(** C9: [dispose()] completes the channel, after which nothing that is done
    to the supervisor reaches the subscribers or changes the status; the
    process it owned, if any, is sent SIGKILL, once. *)
Theorem dispose_completes_and_kills (w : World) (ops : list Operation) :
  stopped (dispose w) = true /\
  emitted (dispose w) = emitted w ++ (if stopped w then [] else [OnCompleted]) /\
  emitted (perform_all ops (dispose w)) = emitted (dispose w) /\
  getValue (perform_all ops (dispose w)) = getValue (dispose w) /\
  killed (dispose w) =
    killed w ++ match _startedServer w with
                | Some p => [(p, "SIGKILL")]
                | None => []
                end.
Proof.
  assert (St : stopped (dispose w) = true).
  { unfold dispose, onCompleted.
    destruct (stopped w) eqn:E; split_cases; exact E || reflexivity. }
  split; [exact St|].
  destruct (Silent_perform_all ops _ St) as [He Hs].
  split; [|split; [exact He|split; [unfold getValue; now rewrite Hs|]]].
  - unfold dispose, onCompleted.
    destruct (stopped w); split_cases; cbn; now rewrite ?app_nil_r.
  - unfold dispose, onCompleted.
    destruct (stopped w); cbn;
      destruct (_startedServer w); cbn; now rewrite ?app_nil_r.
Qed.

(** ** Properties kept by every method *)

Section Stable.

Variable P : World -> Prop.

Hypothesis P_subject : forall s w, P w -> P (set_serverStatus s w).
Hypothesis P_emitted : forall l w, P w -> P (set_emitted l w).
Hypothesis P_start : forall w, P w -> P (_startFlowServer w).
Hypothesis P_log :
  forall entry w, isFlowFailed entry = false -> P w -> P (log entry w).
Hypothesis P_resume : forall w, P w -> P (_startFlowServer_resume w).
Hypothesis P_kill :
  forall p w, _startedServer w = Some p -> P w ->
              P (set_killed (killed w ++ [(p, "SIGKILL")]) w).
Hypothesis P_count :
  forall w, P w -> P (set_rawExecCalls (S (rawExecCalls w)) w).
Hypothesis P_exec :
  forall args options w, P w ->
    P (set_executed
         (executed w ++
          [mkExecCall (pathToFlow w) (args ++ flowFlags)
             ([("cwd", _root w)] ++ options)]) w).
Hypothesis P_logFailed :
  forall args e w, P w -> P (log (ErrorFlowFailed args e) w).

Lemma stable_onNext (x : ServerStatus) (w : World) : P w -> P (onNext x w).
Proof.
  intros H. unfold onNext. destruct (stopped w); [assumption|].
  unfold restartSubscriber, emit.
  destruct (x =? "not running"); [apply P_start|];
    apply P_emitted, P_subject, H.
Qed.

Lemma stable_onCompleted (w : World) : P w -> P (onCompleted w).
Proof.
  intros H. unfold onCompleted. destruct (stopped w); [assumption|].
  apply P_emitted, P_subject, H.
Qed.

Lemma stable_chooseStatus (result : option Result) (w : World) :
  P w -> P (snd (chooseStatus result w)).
Proof.
  intros H. destruct result as [r|]; [|exact H].
  unfold chooseStatus, bind, effect, ret.
  split_cases; cbn [snd]; try exact H; now apply P_log.
Qed.

Lemma stable_updateServerStatus (result : option Result) (w : World) :
  P w -> P (snd (_updateServerStatus result w)).
Proof.
  intros H. rewrite _updateServerStatus_eq. cbn [snd]. cbv zeta.
  apply stable_chooseStatus with (result := result) in H.
  destruct (_ =? _); [assumption|now apply stable_onNext].
Qed.

Lemma stable_dispose (w : World) : P w -> P (dispose w).
Proof.
  intros H. apply stable_onCompleted in H. unfold dispose.
  destruct (_startedServer (onCompleted w)) eqn:E; [|assumption].
  now apply P_kill.
Qed.

Lemma stable_run_event (ev : Event) (w : World) : P w -> P (run_event ev w).
Proof.
  intros H. destruct ev as [r| |p code signal|]; simpl.
  - now apply stable_updateServerStatus.
  - now apply P_resume.
  - destruct (p <? List.length (spawned w))%nat; [|assumption].
    unfold onExit. destruct (strictEq code 2 && _); [|assumption].
    apply stable_onCompleted, stable_onNext. now apply P_log.
  - now apply stable_dispose.
Qed.

Lemma stable_run_events (evs : list Event) (w : World) :
  P w -> P (run_events evs w).
Proof.
  revert w. induction evs as [|ev evs IH]; intros w H; [assumption|].
  apply IH. now apply stable_run_event.
Qed.

Lemma stable_rawExecFlow (args : list string) (options : Options)
    (att : Attempt) (w : World) :
  P w -> P (snd (_rawExecFlow args options att w)).
Proof.
  intros H. rewrite _rawExecFlow_eq. cbv zeta.
  apply P_count in H.
  apply stable_run_events with (evs := duringInstallCheck att) in H.
  destruct (installed att); [|exact H].
  apply P_exec with (args := args) (options := options) in H.
  apply stable_run_events with (evs := duringExecute att) in H.
  destruct (outcome att); cbn [snd]; now apply stable_updateServerStatus.
Qed.

Lemma stable_attempt (i : nat) (attempts : nat -> Attempt)
    (args : list string) (options : Options) (w : World) :
  P w -> P (snd (attempt i attempts args options w)).
Proof.
  intros H. unfold attempt.
  apply stable_rawExecFlow with (args := args) (options := options)
                                (att := attempts i) in H.
  destruct (_rawExecFlow args options (attempts i) w) as [c w1].
  cbn [snd] in *. now apply stable_run_events.
Qed.

Lemma stable_execFlow_loop (fuel i : nat) (attempts : nat -> Attempt)
    (args : list string) (options : Options) (logErrors : bool)
    (w w' : World) (c : Completion (option Result)) :
  execFlow_loop fuel i attempts args options logErrors w = Some (c, w') ->
  P w -> P w'.
Proof.
  revert i w. induction fuel as [|fuel IH]; intros i w H HP; [discriminate|].
  rewrite execFlow_loop_step in H.
  pose proof (stable_attempt i attempts args options w HP) as H1.
  destruct (attempt i attempts args options w) as [[res|e] w1];
    cbn [snd] in H1.
  - injection H as <- <-. assumption.
  - destruct ((i <? maxTries)%nat && shouldRetry w1).
    + eapply IH; eassumption.
    + injection H as <- <-.
      destruct logErrors; [now apply P_logFailed|assumption].
Qed.

Lemma stable_perform (op : Operation) (w : World) : P w -> P (perform op w).
Proof.
  intros H.
  destruct op as [ev|args options att|fuel attempts args options file logE];
    simpl.
  - now apply stable_run_event.
  - now apply stable_rawExecFlow.
  - unfold execFlow. destruct (getValue w =? "failed"); [assumption|].
    destruct (execFlow_loop fuel 0 attempts args options logE w)
      as [[c w']|] eqn:E; [|assumption].
    eapply stable_execFlow_loop; eassumption.
Qed.

Lemma stable_perform_all (ops : list Operation) (w : World) :
  P w -> P (perform_all ops w).
Proof.
  revert w. induction ops as [|op ops IH]; intros w H; [assumption|].
  apply IH. now apply stable_perform.
Qed.

End Stable.

(** ** Servers and commands stay tidy *)

Lemma lastSpawned_bound (w : World) (p : ChildProcess) :
  lastSpawned w = Some p -> S p = List.length (spawned w).
Proof.
  unfold lastSpawned. destruct (List.length (spawned w)); [discriminate|].
  intros H. injection H as <-. reflexivity.
Qed.

Lemma Tidy_constructor (flowPath root : string) :
  Tidy flowPath root (constructor flowPath root).
Proof. split; try reflexivity; constructor. Qed.

Lemma Tidy_resume (flowPath root : string) (w : World) :
  Tidy flowPath root w -> Tidy flowPath root (_startFlowServer_resume w).
Proof.
  intros [Hp Hr Hs Hsp Hk He]. unfold _startFlowServer_resume.
  destruct (startsInFlight w); [split; assumption|].
  split; unfold lastSpawned, set_startedServer, set_spawned, set_startsInFlight;
    cbn [pathToFlow _root _startedServer spawned killed executed];
    try assumption.
  - rewrite length_app. cbn [List.length]. now rewrite Nat.add_1_r.
  - apply Forall_app. split; [assumption|].
    constructor; [now rewrite Hp, Hr|constructor].
  - rewrite length_app. eapply Forall_impl; [|exact Hk].
    cbn beta. intros k [Hlt Hsig]. split; [lia|assumption].
Qed.

Lemma Tidy_kill (flowPath root : string) (p : ChildProcess) (w : World) :
  _startedServer w = Some p ->
  Tidy flowPath root w ->
  Tidy flowPath root (set_killed (killed w ++ [(p, "SIGKILL")]) w).
Proof.
  intros Hstarted [Hp Hr Hs Hsp Hk He].
  split; unfold lastSpawned, set_killed in *;
    cbn [pathToFlow _root _startedServer spawned killed executed];
    try assumption.
  apply Forall_app. split; [assumption|].
  constructor; [|constructor]. cbn [fst snd]. split; [|reflexivity].
  rewrite Hstarted in Hs. symmetry in Hs.
  apply (lastSpawned_bound w p) in Hs. lia.
Qed.

Lemma Tidy_exec (flowPath root : string) (args : list string)
    (options : Options) (w : World) :
  Tidy flowPath root w ->
  Tidy flowPath root
    (set_executed
       (executed w ++
        [mkExecCall (pathToFlow w) (args ++ flowFlags)
           ([("cwd", _root w)] ++ options)]) w).
Proof.
  intros [Hp Hr Hs Hsp Hk He].
  split; unfold lastSpawned, set_executed in *;
    cbn [pathToFlow _root _startedServer spawned killed executed];
    try assumption.
  apply Forall_app. split; [assumption|].
  constructor; [|constructor].
  split; [exact Hp|]. split; [now exists args|].
  exists options. cbn. now rewrite Hr.
Qed.

(** Whatever is done to a supervisor, it stays tidy. *)
Lemma Tidy_perform_all (flowPath root : string) (ops : list Operation) :
  Tidy flowPath root (perform_all ops (constructor flowPath root)).
Proof.
  apply stable_perform_all; try apply Tidy_constructor.
  - intros s w [Hp Hr Hs Hsp Hk He]. split; assumption.
  - intros l w [Hp Hr Hs Hsp Hk He]. split; assumption.
  - intros w [Hp Hr Hs Hsp Hk He]. split; assumption.
  - intros entry w _ [Hp Hr Hs Hsp Hk He]. split; assumption.
  - apply Tidy_resume.
  - apply Tidy_kill.
  - intros w [Hp Hr Hs Hsp Hk He]. split; assumption.
  - intros args options w. apply Tidy_exec.
  - intros args e w [Hp Hr Hs Hsp Hk He]. split; assumption.
Qed.


(** X2: whatever is done to a supervisor, [_startedServer] is the server
    spawned last (null when none was), every server was spawned as
    [flow server root], and the only signal ever sent is SIGKILL, to a
    server this supervisor spawned. *)
Theorem started_server_is_last_spawned (flowPath root : string)
    (ops : list Operation) :
  let w := perform_all ops (constructor flowPath root) in
  _startedServer w = lastSpawned w /\
  Forall (fun s => s = [flowPath; "server"; root]) (spawned w) /\
  Forall (fun k => fst k < List.length (spawned w) /\ snd k = "SIGKILL")
         (killed w).
Proof.
  cbv zeta.
  destruct (Tidy_perform_all flowPath root ops) as [_ _ Hs Hsp Hk _].
  repeat split; assumption.
Qed.

(** ** What a call of execFlow logs and throws *)

Lemma failuresLogged_log (entry : LogEntry) (w : World) :
  failuresLogged (log entry w) =
  failuresLogged w + (if isFlowFailed entry then 1 else 0).
Proof.
  unfold failuresLogged, log, set_logged. cbn [logged].
  rewrite filter_app, length_app. cbn [filter].
  destruct (isFlowFailed entry); reflexivity.
Qed.

Lemma failuresLogged_attempt (i : nat) (attempts : nat -> Attempt)
    (args : list string) (options : Options) (w : World) :
  failuresLogged (snd (attempt i attempts args options w)) = failuresLogged w.
Proof.
  apply (stable_attempt (fun w' => failuresLogged w' = failuresLogged w));
    try reflexivity; try (intros; assumption).
  - intros entry w' Hentry H. rewrite failuresLogged_log, Hentry. lia.
  - intros w' H. unfold _startFlowServer_resume.
    destruct (startsInFlight w'); assumption.
Qed.

Lemma failuresLogged_loop (fuel i : nat) (attempts : nat -> Attempt)
    (args : list string) (options : Options) (logErrors : bool)
    (w w' : World) (c : Completion (option Result)) :
  execFlow_loop fuel i attempts args options logErrors w = Some (c, w') ->
  failuresLogged w' =
  failuresLogged w +
  match c with
  | Abrupt _ => if logErrors then 1 else 0
  | Normal _ => 0
  end.
Proof.
  revert i w. induction fuel as [|fuel IH]; intros i w H; [discriminate|].
  rewrite execFlow_loop_step in H.
  pose proof (failuresLogged_attempt i attempts args options w) as Ha.
  destruct (attempt i attempts args options w) as [[res|e] w1];
    cbn [snd] in Ha.
  - injection H as <- <-. lia.
  - destruct ((i <? maxTries)%nat && shouldRetry w1).
    + apply IH in H. lia.
    + injection H as <- <-.
      destruct logErrors; [|lia].
      rewrite failuresLogged_log. cbn [isFlowFailed]. lia.
Qed.

(** X3: a call of [execFlow] writes its 'Flow failed' line once when it
    throws and [logErrors] is set, and never otherwise: not when it returns
    a result or null, not for the attempts it retried, not when [logErrors]
    is false. *)
Theorem execFlow_logs_failure_once (fuel : nat) (attempts : nat -> Attempt)
    (args : list string) (options : Options) (file : string)
    (logErrors : bool) (w w' : World) (c : Completion (option Result)) :
  execFlow fuel attempts args options file logErrors w = Some (c, w') ->
  failuresLogged w' =
  failuresLogged w +
  match c with
  | Abrupt _ => if logErrors then 1 else 0
  | Normal _ => 0
  end.
Proof.
  unfold execFlow. destruct (getValue w =? "failed").
  - intros H. injection H as <- <-. lia.
  - apply failuresLogged_loop.
Qed.

Lemma execFlow_logs_failure_once_witness :
  failuresLogged
    (log (ErrorFlowFailed ["check"] (ThrownValue (Some (exited 2))))
       (snd (attempt 0 (fun _ => typeErrorAttempt) ["check"] [] freshWorld)))
  = failuresLogged freshWorld + 1.
Proof.
  apply (execFlow_logs_failure_once 6 (fun _ => typeErrorAttempt) ["check"]
           [] "a.js" true freshWorld
           (log (ErrorFlowFailed ["check"] (ThrownValue (Some (exited 2))))
              (snd (attempt 0 (fun _ => typeErrorAttempt) ["check"] []
                      freshWorld)))
           (Abrupt (ThrownValue (Some (exited 2))))).
  vm_compute; reflexivity.
Defined.

(** What [_rawExecFlow] throws is what [asyncExecute] rejected with. *)
Lemma attempt_throws (i : nat) (attempts : nat -> Attempt)
    (args : list string) (options : Options) (w w' : World) (e : Thrown) :
  attempt i attempts args options w = (Abrupt e, w') ->
  installed (attempts i) = true /\
  exists e', outcome (attempts i) = Rejected e' /\ e = ThrownValue e'.
Proof.
  unfold attempt. rewrite _rawExecFlow_eq. cbv zeta.
  destruct (installed (attempts i)); [|discriminate].
  destruct (outcome (attempts i)) as [r|e']; [discriminate|].
  intros H. injection H as <- _. split; [reflexivity|].
  now exists e'.
Qed.

Lemma execFlow_loop_throws (fuel i : nat) (attempts : nat -> Attempt)
    (args : list string) (options : Options) (logErrors : bool)
    (w w' : World) (e : Thrown) :
  execFlow_loop fuel i attempts args options logErrors w
  = Some (Abrupt e, w') ->
  exists j e',
    i <= j /\ j <= Nat.max i maxTries /\
    installed (attempts j) = true /\
    outcome (attempts j) = Rejected e' /\
    e = ThrownValue e'.
Proof.
  revert i w. induction fuel as [|fuel IH]; intros i w H; [discriminate|].
  rewrite execFlow_loop_step in H.
  destruct (attempt i attempts args options w) as [[res|e0] w1] eqn:Ha;
    [discriminate|].
  destruct (i <? maxTries)%nat eqn:Hi; cbn [andb] in H.
  - apply Nat.ltb_lt in Hi. destruct (shouldRetry w1).
    + apply IH in H. destruct H as (j & e' & Hle & Hmax & Hrest).
      exists j, e'. repeat split; try apply Hrest; lia.
    + injection H as <- _.
      destruct (attempt_throws _ _ _ _ _ _ _ Ha) as (Hin & e' & Ho & He).
      exists i, e'. repeat split; try assumption; lia.
  - injection H as <- _.
    destruct (attempt_throws _ _ _ _ _ _ _ Ha) as (Hin & e' & Ho & He).
    exists i, e'. repeat split; try assumption; lia.
Qed.

(** X4: what [execFlow] throws is always the very value that
    [asyncExecute] rejected with at one of the first [maxTries + 1]
    attempts, Flow being installed at that attempt; it never throws an
    assertion failure of its own. *)
Theorem execFlow_throws_a_rejection (fuel : nat) (attempts : nat -> Attempt)
    (args : list string) (options : Options) (file : string)
    (logErrors : bool) (w w' : World) (e : Thrown) :
  execFlow fuel attempts args options file logErrors w
  = Some (Abrupt e, w') ->
  exists j e',
    j <= maxTries /\
    installed (attempts j) = true /\
    outcome (attempts j) = Rejected e' /\
    e = ThrownValue e'.
Proof.
  unfold execFlow. destruct (getValue w =? "failed"); [discriminate|].
  intros H. apply execFlow_loop_throws in H.
  destruct H as (j & e' & _ & Hmax & Hrest).
  exists j, e'. split; [exact Hmax|exact Hrest].
Qed.

Lemma execFlow_throws_a_rejection_witness :
  exists j e',
    j <= maxTries /\
    installed typeErrorAttempt = true /\
    outcome typeErrorAttempt = Rejected e' /\
    ThrownValue (Some (exited 2)) = ThrownValue e'.
Proof.
  apply (execFlow_throws_a_rejection 6 (fun _ => typeErrorAttempt) ["check"]
           [] "a.js" false freshWorld
           (snd (attempt 0 (fun _ => typeErrorAttempt) ["check"] []
                   freshWorld))).
  vm_compute; reflexivity.
Defined.

(** X5: "Returns null if Flow cannot be found": when [isFlowInstalled()]
    answers false at the first attempt, [execFlow] returns null; it has
    executed no command and logged no failure. *)
Theorem execFlow_null_when_not_installed (fuel : nat)
    (attempts : nat -> Attempt) (args : list string) (options : Options)
    (file : string) (logErrors : bool) (w : World) :
  0 < fuel ->
  installed (attempts 0) = false ->
  exists w',
    execFlow fuel attempts args options file logErrors w
    = Some (Normal None, w') /\
    executed w' = executed w /\
    failuresLogged w' = failuresLogged w.
Proof.
  intros Hfuel Hni. unfold execFlow.
  destruct (getValue w =? "failed"); [now exists w|].
  destruct fuel as [|fuel]; [lia|].
  rewrite execFlow_loop_step.
  pose proof (failuresLogged_attempt 0 attempts args options w) as Hl.
  unfold attempt in *. rewrite _rawExecFlow_eq in *. cbv zeta in *.
  rewrite Hni in *. cbn [snd] in Hl.
  eexists. split; [reflexivity|]. split; [|exact Hl].
  match goal with
  | |- executed (run_events ?evs2 (run_events ?evs1 ?w0)) = _ =>
      destruct (SameCommands_run_events evs2 (run_events evs1 w0)) as [_ ->];
      destruct (SameCommands_run_events evs1 w0) as [_ ->]
  end.
  reflexivity.
Qed.

Lemma execFlow_null_when_not_installed_witness :
  exists w',
    execFlow 6 (fun _ => notInstalledAttempt) ["check"] [] "a.js" true
      freshWorld
    = Some (Normal None, w') /\
    executed w' = executed freshWorld /\
    failuresLogged w' = failuresLogged freshWorld.
Proof.
  apply (execFlow_null_when_not_installed 6 (fun _ => notInstalledAttempt)
           ["check"] [] "a.js" true freshWorld);
    [lia|reflexivity].
Defined.

(** ** Running out of attempts *)

Lemma ReachesAttempt_worldAfter (k : nat) (attempts : nat -> Attempt)
    (args : list string) (options : Options) (w0 : World) :
  getValue w0 <> "failed" ->
  k <= maxTries ->
  allRetried k attempts args options w0 = true ->
  ReachesAttempt attempts args options w0 k
    (worldAfter k attempts args options w0).
Proof.
  intros Hnf. induction k as [|k IH]; intros Hk Hall.
  - now apply RA_first.
  - cbn [allRetried] in Hall.
    apply andb_true_iff in Hall as [Hall Hretry].
    apply andb_true_iff in Hall as [Hall Hfail].
    destruct (attempt k attempts args options
                (worldAfter k attempts args options w0))
      as [[r|e] w1] eqn:Ha; [discriminate|].
    apply RA_retry with (w := worldAfter k attempts args options w0) (e := e).
    + apply IH; [lia|assumption].
    + cbn [worldAfter]. now rewrite Ha.
    + lia.
    + exact Hretry.
Qed.

(** At iteration [maxTries] a failure is final. *)
Lemma execFlow_last_attempt (fuel : nat) (attempts : nat -> Attempt)
    (args : list string) (options : Options) (file : string)
    (logErrors : bool) (w0 w w' : World) (e : Thrown) :
  maxTries < fuel ->
  ReachesAttempt attempts args options w0 maxTries w ->
  attempt maxTries attempts args options w = (Abrupt e, w') ->
  execFlow fuel attempts args options file logErrors w0 =
    Some (Abrupt e, if logErrors then log (ErrorFlowFailed args e) w' else w')
  /\ rawExecCalls w' = rawExecCalls w0 + S maxTries.
Proof.
  intros Hf HR Ha.
  destruct (ReachesAttempt_loop _ _ _ _ _ _ HR) as (_ & Hc & Hloop).
  pose proof (attempt_counts maxTries attempts args options w) as Hn.
  rewrite Ha in Hn. cbn [snd] in Hn.
  split; [|lia].
  replace fuel with (S (fuel - S maxTries) + maxTries) by lia.
  rewrite Hloop, execFlow_loop_step, Ha. reflexivity.
Qed.

(** X6: when a call of [execFlow] has been through [maxTries] retried
    failures and the next attempt fails too, that last error is thrown,
    whatever the status is by then, and the call has made [maxTries + 1]
    raw invocations. *)
Theorem execFlow_gives_up (fuel : nat) (attempts : nat -> Attempt)
    (args : list string) (options : Options) (file : string)
    (logErrors : bool) (w0 w w' : World) (e : Thrown) :
  maxTries < fuel ->
  ReachesAttempt attempts args options w0 maxTries w ->
  attempt maxTries attempts args options w = (Abrupt e, w') ->
  execFlow fuel attempts args options file logErrors w0 =
    Some (Abrupt e, if logErrors then log (ErrorFlowFailed args e) w' else w')
  /\ rawExecCalls w' = rawExecCalls w0 + 6.
Proof. apply execFlow_last_attempt. Qed.

Lemma execFlow_gives_up_witness :
  execFlow 6 (fun _ => busyAttempt) ["check"] [] "a.js" false freshWorld =
    Some (Abrupt (ThrownValue (Some (exited 7))),
          worldAfter 6 (fun _ => busyAttempt) ["check"] [] freshWorld)
  /\ rawExecCalls (worldAfter 6 (fun _ => busyAttempt) ["check"] [] freshWorld)
     = rawExecCalls freshWorld + 6.
Proof.
  assert (Hfuel : maxTries < 6) by (unfold maxTries; lia).
  assert (HR : ReachesAttempt (fun _ => busyAttempt) ["check"] [] freshWorld
                 maxTries
                 (worldAfter maxTries (fun _ => busyAttempt) ["check"] []
                    freshWorld)).
  { apply ReachesAttempt_worldAfter;
      [discriminate|apply le_n|vm_compute; reflexivity]. }
  apply (execFlow_gives_up 6 (fun _ => busyAttempt) ["check"] [] "a.js" false
           freshWorld _ _ (ThrownValue (Some (exited 7))) Hfuel HR).
  vm_compute; reflexivity.
Defined.

(** ** Which exit codes start a server, which are retried *)

Lemma table_not_running (result : option Result) :
  (classification_table result =? "not running") = restartExit result.
Proof.
  destruct result as [[[z|] so se]|]; try reflexivity.
  destruct z as [|p|p]; try reflexivity;
    do 4 (try (destruct p as [p|p|]; try reflexivity)).
Qed.

Lemma table_retryable (result : option Result) :
  negb (Z.eqb (indexOf ["not running"; "init"; "busy"]
                 (classification_table result)) (-1))
  = retryableExit result.
Proof.
  destruct result as [[[z|] so se]|]; try reflexivity.
  destruct z as [|p|p]; try reflexivity;
    do 4 (try (destruct p as [p|p|]; try reflexivity)).
Qed.

(** X7: classifying a result calls [_startFlowServer] exactly when the
    channel is still open, the exit code is 6 (no server running) or 9
    (build id mismatch) and the status was not 'not running' already; no
    other classification starts a server. *)
Theorem classification_starts_server (result : option Result) (w : World) :
  startsInvoked (snd (_updateServerStatus result w)) =
  startsInvoked w +
  (if negb (stopped w) && restartExit result
      && negb (getValue w =? "not running")
   then 1 else 0).
Proof.
  rewrite _updateServerStatus_eq. cbn [snd]. cbv zeta.
  destruct (chooseStatus_world result w) as (Hs & _ & Hf & Hp & _).
  rewrite <- table_not_running.
  unfold getValue, stopped, onNext, startsInvoked. rewrite !Hs.
  destruct (String.eqb_spec (classification_table result)
              (value (_serverStatus w))) as [E|E].
  - rewrite Hf, Hp.
    destruct (isStopped (_serverStatus w)); cbn [negb andb]; [lia|].
    rewrite <- E.
    destruct (classification_table result =? "not running");
      cbn [negb andb]; lia.
  - unfold stopped. rewrite Hs.
    destruct (isStopped (_serverStatus w)); cbn [negb andb];
      [rewrite Hf, Hp; lia|].
    unfold restartSubscriber.
    destruct (String.eqb_spec (classification_table result) "not running")
      as [E'|E']; cbn [andb].
    + replace (value (_serverStatus w) =? "not running") with false.
      * unfold _startFlowServer, emit, set_emitted, set_serverStatus,
          set_startsInFlight. cbn [startsInFlight spawned negb].
        rewrite Hf, Hp. lia.
      * symmetry. apply String.eqb_neq. congruence.
    + unfold emit, set_emitted, set_serverStatus.
      cbn [startsInFlight spawned]. rewrite Hf, Hp. lia.
Qed.

(** X8: on an open channel and with nothing interfering, the status that
    [execFlow] reads after a rejected invocation allows a retry exactly
    when the exit code was 1, 6, 7 or 9; a rejection with any other exit
    code, with none, or with null is not retried. *)
Theorem retry_follows_exit_code (args : list string) (options : Options)
    (e : option Result) (evs : list Event) (w : World) :
  stopped w = false ->
  shouldRetry
    (snd (_rawExecFlow args options (mkAttempt true (Rejected e) [] [] evs) w))
  = retryableExit e.
Proof.
  intros St. rewrite _rawExecFlow_eq. cbv zeta.
  cbn [installed outcome duringInstallCheck duringExecute run_events
       fold_left snd].
  unfold shouldRetry. rewrite updateServerStatus_value.
  match goal with
  | |- context [stopped ?w'] => change (stopped w') with (stopped w)
  end.
  rewrite St. apply table_retryable.
Qed.

Lemma retry_follows_exit_code_witness :
  shouldRetry
    (snd (_rawExecFlow ["check"] []
            (mkAttempt true (Rejected (Some (exited 9))) [] [] []) freshWorld))
  = retryableExit (Some (exited 9)).
Proof.
  apply (retry_follows_exit_code ["check"] [] (Some (exited 9)) [] freshWorld).
  reflexivity.
Defined.

(** ** After the channel has completed *)

(** X9: 'failed' is final: once the status of a supervisor is 'failed',
    nothing that is done to it changes the status or reaches the
    subscribers, and every later [execFlow] returns null. *)
Theorem failed_is_final (flowPath root : string) (ops0 ops : list Operation)
    (fuel : nat) (attempts : nat -> Attempt) (args : list string)
    (options : Options) (file : string) (logErrors : bool) :
  let w := perform_all ops0 (constructor flowPath root) in
  getValue w = "failed" ->
  getValue (perform_all ops w) = "failed" /\
  emitted (perform_all ops w) = emitted w /\
  execFlow fuel attempts args options file logErrors (perform_all ops w)
  = Some (Normal None, perform_all ops w).
Proof.
  cbv zeta. intros Hf.
  destruct (Inv_perform_all ops0 _ (Inv_constructor flowPath root))
    as [_ _ Hstop _].
  destruct (Silent_perform_all ops _ (Hstop Hf)) as [He Hs].
  assert (Hv : getValue (perform_all ops
                 (perform_all ops0 (constructor flowPath root))) = "failed")
    by (unfold getValue in *; now rewrite Hs).
  split; [exact Hv|]. split; [exact He|].
  unfold execFlow. now rewrite Hv.
Qed.

Lemma failed_is_final_witness :
  getValue
    (perform_all [OpEvent (CommandClassified (Some (exited 0)))]
       (perform_all
          [OpEvent (CommandClassified (Some (exited 6))); OpEvent SpawnResolved;
           OpEvent (ServerExited 0 (Some 2%Z) None)]
          (constructor "flow" "/proj")))
  = "failed".
Proof.
  refine (proj1 (failed_is_final "flow" "/proj"
            [OpEvent (CommandClassified (Some (exited 6)));
             OpEvent SpawnResolved;
             OpEvent (ServerExited 0 (Some 2%Z) None)]
            [OpEvent (CommandClassified (Some (exited 0)))]
            6 (fun _ => okAttempt) ["check"] [] "a.js" true _)).
  vm_compute; reflexivity.
Defined.

(** X10: once the channel of a supervisor has completed (by [dispose()] or
    by a crash), nothing that is done to it calls [_startFlowServer] again,
    not even a result with exit code 6. *)
Theorem completed_starts_no_server (flowPath root : string)
    (ops0 ops : list Operation) :
  let w := perform_all ops0 (constructor flowPath root) in
  stopped w = true ->
  startsInvoked (perform_all ops w) = startsInvoked w.
Proof.
  cbv zeta. intros St.
  destruct (Inv_perform_all ops0 _ (Inv_constructor flowPath root))
    as [_ _ _ H0].
  destruct (Inv_perform_all (ops0 ++ ops) _ (Inv_constructor flowPath root))
    as [_ _ _ H1].
  unfold perform_all in *. rewrite fold_left_app in H1.
  destruct (Silent_perform_all ops _ St) as [He _].
  unfold perform_all in He. rewrite H1, He. symmetry. exact H0.
Qed.

Lemma completed_starts_no_server_witness :
  startsInvoked
    (perform_all [OpEvent (CommandClassified (Some (exited 6)))]
       (perform_all
          [OpEvent (CommandClassified (Some (exited 7))); OpEvent Disposed]
          (constructor "flow" "/proj")))
  = startsInvoked
      (perform_all
         [OpEvent (CommandClassified (Some (exited 7))); OpEvent Disposed]
         (constructor "flow" "/proj")).
Proof.
  apply (completed_starts_no_server "flow" "/proj"
           [OpEvent (CommandClassified (Some (exited 7))); OpEvent Disposed]
           [OpEvent (CommandClassified (Some (exited 6)))]).
  vm_compute; reflexivity.
Defined.

(** ** Disposal and the servers it misses *)

Lemma onCompleted_fields (w : World) :
  stopped (onCompleted w) = true /\
  _startedServer (onCompleted w) = _startedServer w /\
  killed (onCompleted w) = killed w /\
  spawned (onCompleted w) = spawned w /\
  startsInFlight (onCompleted w) = startsInFlight w /\
  pathToFlow (onCompleted w) = pathToFlow w /\
  _root (onCompleted w) = _root w.
Proof.
  unfold onCompleted. destruct (stopped w) eqn:St; repeat split; exact St.
Qed.

Lemma onCompleted_stopped (w : World) :
  stopped w = true -> onCompleted w = w.
Proof. intros St. unfold onCompleted. now rewrite St. Qed.

Lemma dispose_fields (w : World) :
  stopped (dispose w) = true /\
  _startedServer (dispose w) = _startedServer w /\
  killed (dispose w) =
    killed w ++ match _startedServer w with
                | Some p => [(p, "SIGKILL")]
                | None => []
                end /\
  spawned (dispose w) = spawned w /\
  startsInFlight (dispose w) = startsInFlight w /\
  pathToFlow (dispose w) = pathToFlow w /\
  _root (dispose w) = _root w /\
  emitted (dispose w) = emitted (onCompleted w) /\
  _serverStatus (dispose w) = _serverStatus (onCompleted w).
Proof.
  destruct (onCompleted_fields w) as (St & Hs & Hk & Hsp & Hf & Hp & Hr).
  unfold dispose. rewrite Hs.
  destruct (_startedServer w) as [p|];
    unfold set_killed, stopped in *;
    cbn [_serverStatus _startedServer killed spawned startsInFlight
         pathToFlow _root emitted];
    rewrite ?Hk, ?app_nil_r; repeat split; assumption.
Qed.

(** X11: calling [dispose()] again completes nothing further and sends
    nothing to the subscribers, but [_startedServer] is never cleared: the
    owned server is sent SIGKILL once more. *)
Theorem dispose_twice (w : World) :
  emitted (dispose (dispose w)) = emitted (dispose w) /\
  _serverStatus (dispose (dispose w)) = _serverStatus (dispose w) /\
  killed (dispose (dispose w)) =
    killed (dispose w) ++ match _startedServer w with
                          | Some p => [(p, "SIGKILL")]
                          | None => []
                          end.
Proof.
  destruct (dispose_fields w) as (St & Hs & _).
  destruct (dispose_fields (dispose w)) as (_ & _ & Hk & _ & _ & _ & _ & He & Hv).
  rewrite (onCompleted_stopped _ St) in He, Hv.
  rewrite Hs in Hk. repeat split; assumption.
Qed.

(** X12: a server whose start was still in flight when [dispose()] ran is
    spawned all the same once [safeSpawn] resolves; it becomes
    [_startedServer], and the disposal did not kill it. *)
Theorem dispose_misses_pending_start (flowPath root : string)
    (ops : list Operation) :
  let w := perform_all ops (constructor flowPath root) in
  0 < startsInFlight w ->
  let w' := run_events [Disposed; SpawnResolved] w in
  spawned w' = spawned w ++ [[flowPath; "server"; root]] /\
  _startedServer w' = Some (List.length (spawned w)) /\
  ~ In (List.length (spawned w)) (map fst (killed w')).
Proof.
  cbv zeta. intros Hpending.
  destruct (Tidy_perform_all flowPath root ops) as [Hp Hr Hs _ Hk _].
  set (w := perform_all ops (constructor flowPath root)) in *.
  destruct (dispose_fields w)
    as (_ & _ & Hkd & Hspd & Hfd & Hpd & Hrd & _).
  cbn [run_events fold_left run_event].
  unfold _startFlowServer_resume. rewrite Hfd.
  destruct (startsInFlight w) as [|n]; [lia|].
  unfold set_startedServer, set_spawned, set_startsInFlight.
  cbn [spawned _startedServer killed].
  rewrite Hspd, Hpd, Hrd, Hp, Hr, Hkd.
  split; [reflexivity|]. split; [reflexivity|].
  rewrite map_app. intros Hin. apply in_app_or in Hin as [Hin|Hin].
  - apply in_map_iff in Hin as (k & Hk1 & Hin).
    rewrite Forall_forall in Hk. apply Hk in Hin.
    cbn beta in Hin. destruct Hin as [Hlt _].
    unfold ChildProcess in *. lia.
  - destruct (_startedServer w) as [p|] eqn:Hst; [|destruct Hin].
    destruct Hin as [Hin|[]]. cbn [fst] in Hin.
    symmetry in Hs. apply lastSpawned_bound in Hs.
    unfold ChildProcess in *. lia.
Qed.

Lemma dispose_misses_pending_start_witness :
  _startedServer
    (run_events [Disposed; SpawnResolved]
       (perform_all [OpEvent (CommandClassified (Some (exited 6)))]
          (constructor "flow" "/proj")))
  = Some 0.
Proof.
  refine (proj1 (proj2 (dispose_misses_pending_start "flow" "/proj"
            [OpEvent (CommandClassified (Some (exited 6)))] _))).
  vm_compute. lia.
Defined.

(** ** Retrying on a completed channel *)

Lemma frozen_attempt (i : nat) (attempts : nat -> Attempt)
    (args : list string) (options : Options) (w : World) (e : option Result) :
  stopped w = true ->
  installed (attempts i) = true ->
  outcome (attempts i) = Rejected e ->
  exists w1,
    attempt i attempts args options w = (Abrupt (ThrownValue e), w1) /\
    Silent w w1.
Proof.
  intros St Hin Hout.
  pose proof (Silent_attempt i attempts args options w St) as HS.
  unfold attempt in *. rewrite _rawExecFlow_eq in *. cbv zeta in *.
  rewrite Hin, Hout in *. cbn [snd] in HS.
  eexists. split; [reflexivity|exact HS].
Qed.

Lemma frozen_worldAfter (k : nat) (attempts : nat -> Attempt)
    (args : list string) (options : Options) (w : World) :
  stopped w = true ->
  shouldRetry w = true ->
  (forall i, installed (attempts i) = true /\
             exists e, outcome (attempts i) = Rejected e) ->
  Silent w (worldAfter k attempts args options w) /\
  allRetried k attempts args options w = true.
Proof.
  intros St Hretry Hatt. induction k as [|k [HS Hall]].
  - split; [split|]; reflexivity.
  - destruct (Hatt k) as (Hin & e & Hout).
    destruct (frozen_attempt k attempts args options
                (worldAfter k attempts args options w) e
                (Silent_stopped _ _ HS St) Hin Hout)
      as (w1 & Ha & HS1).
    assert (HS' : Silent w (worldAfter (S k) attempts args options w)).
    { cbn [worldAfter]. rewrite Ha. cbn [snd].
      eapply Silent_trans; eassumption. }
    split; [exact HS'|].
    cbn [allRetried]. rewrite Hall, Ha. cbn [fst andb].
    destruct HS' as [_ Hs]. unfold shouldRetry, getValue in *.
    now rewrite Hs.
Qed.

(** X13: [execFlow] decides on the status of the subject, and a completed
    subject keeps its value.  On a supervisor disposed while its status was
    'not running', 'init' or 'busy', a command that fails is therefore run
    [maxTries + 1] times whatever its exit codes are, and the error of the
    last run is thrown. *)
Theorem completed_channel_retries_blindly (fuel : nat)
    (attempts : nat -> Attempt) (args : list string) (options : Options)
    (file : string) (logErrors : bool) (w : World) :
  maxTries < fuel ->
  stopped w = true ->
  shouldRetry w = true ->
  (forall i, installed (attempts i) = true /\
             exists e, outcome (attempts i) = Rejected e) ->
  exists e w',
    execFlow fuel attempts args options file logErrors w
    = Some (Abrupt (ThrownValue e), w') /\
    outcome (attempts maxTries) = Rejected e /\
    rawExecCalls w' = rawExecCalls w + 6 /\
    getValue w' = getValue w.
Proof.
  intros Hf St Hretry Hatt.
  destruct (frozen_worldAfter maxTries attempts args options w St Hretry Hatt)
    as [HS Hall].
  assert (Hnf : getValue w <> "failed").
  { apply shouldRetry_spec in Hretry.
    destruct Hretry as [H|[H|[H|[]]]]; rewrite <- H; discriminate. }
  pose proof (ReachesAttempt_worldAfter maxTries attempts args options w
                Hnf (le_n _) Hall) as HR.
  destruct (Hatt maxTries) as (Hin & e & Hout).
  destruct (frozen_attempt maxTries attempts args options _ e
              (Silent_stopped _ _ HS St) Hin Hout) as (w1 & Ha & HS1).
  destruct (execFlow_last_attempt fuel attempts args options file logErrors
              w _ w1 (ThrownValue e) Hf HR Ha) as [Hexec Hcount].
  destruct (Silent_trans _ _ _ HS HS1) as [_ Hs].
  eexists. eexists. split; [exact Hexec|]. split; [exact Hout|].
  destruct logErrors; unfold log, set_logged, getValue;
    cbn [rawExecCalls _serverStatus]; rewrite Hs;
    (split; [exact Hcount|reflexivity]).
Qed.

Lemma completed_channel_retries_blindly_witness :
  exists e w',
    execFlow 6 (fun _ => typeErrorAttempt) ["check"] [] "a.js" true
      disposedBusyWorld
    = Some (Abrupt (ThrownValue e), w') /\
    outcome typeErrorAttempt = Rejected e /\
    rawExecCalls w' = rawExecCalls disposedBusyWorld + 6 /\
    getValue w' = getValue disposedBusyWorld.
Proof.
  apply (completed_channel_retries_blindly 6 (fun _ => typeErrorAttempt)
           ["check"] [] "a.js" true disposedBusyWorld).
  - unfold maxTries; lia.
  - vm_compute; reflexivity.
  - vm_compute; reflexivity.
  - intros i. split; [reflexivity|]. eexists. reflexivity.
Defined.

(** ** The Python package *)


Lemma LatestProvider_run_calls (calls : list PythonMain.Call)
    (st : PythonMain.State) :
  PythonMain.LatestProvider st ->
  PythonMain.LatestProvider (PythonMain.run_calls calls st) /\
  PythonMain.providersCreated (PythonMain.run_calls calls st) =
  PythonMain.providersCreated st
  + List.length (filter PythonMain.isActivate calls).
Proof.
  revert st. induction calls as [|c calls IH]; intros st H.
  - split; [assumption|]. cbn. lia.
  - cbn [PythonMain.run_calls fold_left].
    assert (H1 : PythonMain.LatestProvider (PythonMain.run_call c st) /\
                 PythonMain.providersCreated (PythonMain.run_call c st) =
                 PythonMain.providersCreated st
                 + (if PythonMain.isActivate c then 1 else 0)).
    { destruct c; unfold PythonMain.run_call, PythonMain.activate,
        PythonMain.deactivate, PythonMain.LatestProvider in *;
        destruct (PythonMain.pythonLanguageService st);
        cbn [PythonMain.busySignalProvider PythonMain.providersCreated
             PythonMain.isActivate];
        split; try reflexivity; try assumption; lia. }
    destruct H1 as [HL Hn].
    destruct (IH _ HL) as [HL' Hn'].
    split; [exact HL'|].
    unfold PythonMain.run_calls in Hn'. rewrite Hn', Hn.
    cbn [filter]. destruct (PythonMain.isActivate c); cbn [List.length]; lia.
Qed.


(** X15: [provideBusySignal()] and [lint()] fail their [invariant] exactly
    as long as [activate()] has never been called; [deactivate()] does not
    clear the provider; and each [activate()] replaces it by a new one, so
    after the n-th activation both use the n-th provider made. *)
Theorem python_busy_signal_provider (calls : list PythonMain.Call)
    (title : string) :
  let st := PythonMain.run_calls calls PythonMain.initial in
  PythonMain.provideBusySignal st =
    match List.length (filter PythonMain.isActivate calls) with
    | O => Abrupt AssertionError
    | S n => Normal n
    end /\
  PythonMain.lint title st =
    match List.length (filter PythonMain.isActivate calls) with
    | O => Abrupt AssertionError
    | S n =>
        Normal (n, ("Python: Waiting for flake8 lint results for `" ++ title
                    ++ "`")%string)
    end.
Proof.
  cbv zeta.
  destruct (LatestProvider_run_calls calls PythonMain.initial) as [HL Hn];
    [reflexivity|].
  cbn [PythonMain.initial PythonMain.providersCreated plus] in Hn.
  unfold PythonMain.provideBusySignal, PythonMain.lint,
    PythonMain.LatestProvider in *.
  rewrite HL, Hn.
  destruct (List.length (filter PythonMain.isActivate calls)); split;
    reflexivity.
Qed.

(** ** What a call of execFlow returns *)

Lemma attempt_returns (i : nat) (attempts : nat -> Attempt)
    (args : list string) (options : Options) (w w' : World)
    (r : option Result) :
  attempt i attempts args options w = (Normal r, w') ->
  (installed (attempts i) = false /\ r = None) \/
  (installed (attempts i) = true /\
   exists res, outcome (attempts i) = Fulfilled res /\ r = Some res).
Proof.
  unfold attempt. rewrite _rawExecFlow_eq. cbv zeta.
  destruct (installed (attempts i)).
  - destruct (outcome (attempts i)) as [res|e]; [|discriminate].
    intros H. injection H as <- _. right. split; [reflexivity|].
    now exists res.
  - intros H. injection H as <- _. now left.
Qed.

Lemma execFlow_loop_result (fuel i : nat) (attempts : nat -> Attempt)
    (args : list string) (options : Options) (logErrors : bool)
    (w w' : World) (r : option Result) :
  execFlow_loop fuel i attempts args options logErrors w
  = Some (Normal r, w') ->
  exists j,
    i <= j /\ j <= Nat.max i maxTries /\
    ((installed (attempts j) = false /\ r = None) \/
     (installed (attempts j) = true /\
      exists res, outcome (attempts j) = Fulfilled res /\ r = Some res)).
Proof.
  revert i w. induction fuel as [|fuel IH]; intros i w H; [discriminate|].
  rewrite execFlow_loop_step in H.
  destruct (attempt i attempts args options w) as [[res|e0] w1] eqn:Ha.
  - injection H as <- _. exists i.
    split; [lia|]. split; [lia|]. eapply attempt_returns; eassumption.
  - destruct (i <? maxTries)%nat eqn:Hi; cbn [andb] in H; [|discriminate].
    apply Nat.ltb_lt in Hi.
    destruct (shouldRetry w1); [|discriminate].
    apply IH in H. destruct H as (j & Hle & Hmax & Hrest).
    exists j. split; [lia|]. split; [lia|exact Hrest].
Qed.

(** X16: when [execFlow] returns normally, the result is either null, and
    then the status was 'failed' or [isFlowInstalled()] answered false at
    one of the attempts, or it is the very result [asyncExecute] resolved
    with at one of the first [maxTries + 1] attempts: a run of Flow never
    yields null. *)
Theorem execFlow_result_origin (fuel : nat) (attempts : nat -> Attempt)
    (args : list string) (options : Options) (file : string)
    (logErrors : bool) (w w' : World) (r : option Result) :
  execFlow fuel attempts args options file logErrors w
  = Some (Normal r, w') ->
  (getValue w = "failed" /\ r = None /\ w' = w) \/
  (exists j,
     j <= maxTries /\
     ((installed (attempts j) = false /\ r = None) \/
      (installed (attempts j) = true /\
       exists res, outcome (attempts j) = Fulfilled res /\ r = Some res))).
Proof.
  unfold execFlow.
  destruct (String.eqb_spec (getValue w) "failed") as [E|E].
  - intros H. injection H as <- <-. left. repeat split. exact E.
  - intros H. right. apply execFlow_loop_result in H.
    destruct H as (j & _ & Hmax & Hrest).
    exists j. split; [exact Hmax|exact Hrest].
Qed.

Lemma execFlow_result_origin_witness :
  (getValue freshWorld = "failed" /\ Some (exited 0) = None /\
   snd (attempt 0 (fun _ => okAttempt) ["check"] [] freshWorld) = freshWorld)
  \/
  (exists j,
     j <= maxTries /\
     ((installed okAttempt = false /\ Some (exited 0) = None) \/
      (installed okAttempt = true /\
       exists res, outcome okAttempt = Fulfilled res /\
                   Some (exited 0) = Some res))).
Proof.
  apply (execFlow_result_origin 6 (fun _ => okAttempt) ["check"] [] "a.js"
           true freshWorld
           (snd (attempt 0 (fun _ => okAttempt) ["check"] [] freshWorld))
           (Some (exited 0))).
  vm_compute; reflexivity.
Defined.
